(** * PubSubPeerDiscovery: a shallow embedding of [src/index.ts]

    The class [PubSubPeerDiscovery] is embedded as a record holding its
    fields together with a [World] record for everything the methods act
    upon from the outside: the pubsub transport, the timer facility of the
    host, the address manager, the logger, the listeners of the ['peer']
    event and the promises still to be settled.

    Methods are computations in a state monad that also carries thrown
    exceptions.  A JavaScript [throw] keeps the effects performed before
    it, so a computation returns its result {e and} the state it reached.

    JavaScript numbers (milliseconds here) are embedded as exact rationals
    [Q]; the rounding of double-precision products is not part of the
    model.  What is proved of a product below holds of the rounded product
    of finite doubles as well: it follows from laws that rounding keeps
    (see [product_within]). *)

From Stdlib Require Import List String Bool Arith Lia QArith NArith.
From Stdlib.Strings Require Import Byte.
From Stdlib Require Import PrimFloat.
Import ListNotations.

Set Implicit Arguments.

#[local] Close Scope Q_scope.
#[local] Open Scope nat_scope.
#[local] Open Scope string_scope.
#[local] Open Scope list_scope.

(** ** Data *)

(** [Uint8Array] *)
Definition bytes := list byte.

Definition bytes_eqb (a b : bytes) : bool :=
  if list_eq_dec Byte.byte_eq_dec a b then true else false.

(** The message of [./peer.js]: [{ publicKey, addrs }]. *)
Module PBPeer.
Record Peer := { publicKey : bytes; addrs : list bytes }.
End PBPeer.

(** [Message] of [@libp2p/interface-pubsub], as far as [_onMessage] reads it. *)
Record Message := { topic : string; data : bytes }.

(** One entry of [subChangeEvt.detail.subscriptions]. *)
Module Subscription.
Record t := { topic : string; subscribe : bool }.
End Subscription.

(** Values that are thrown, or that reject a promise. *)
Inductive Exception :=
| Error (message : string)      (* [new Error(message)] *)
| DecodeError                   (* thrown by [PBPeer.decode] *)
| InvalidKeys                   (* rejection of [peerIdFromKeys] *)
| InvalidMultiaddr.             (* thrown by [multiaddr] *)

(** The collaborators whose code is outside [src/index.ts].  A function
    that may throw (or a promise that may reject) returns [None] then.

    [encode] and [decode] stand for [PBPeer.encode] and [PBPeer.decode] of
    [./peer.js], which is not among the sources; the engine is verified for
    any such codec. *)
Class Externals := {
  PeerId : Type;
  PeerId_publicKey : PeerId -> option bytes;     (* [peerId.publicKey] *)
  PeerId_equals : PeerId -> PeerId -> bool;      (* [a.equals(b)] *)
  peerIdFromKeys : bytes -> option PeerId;
  Multiaddr : Type;
  Multiaddr_bytes : Multiaddr -> bytes;          (* [ma.bytes] *)
  multiaddr : bytes -> option Multiaddr;
  encode : PBPeer.Peer -> bytes;
  decode : bytes -> option PBPeer.Peer
}.

(** [export const TOPIC] *)
Definition TOPIC : string := "_peer-discovery._p2p._pubsub".

(** [Array.prototype.includes] on an array of strings. *)
Definition includes (l : list string) (s : string) : bool :=
  existsb (String.eqb s) l.

(** [PubsubPeerDiscoveryInit]: every option may be left out. *)
Record PubsubPeerDiscoveryInit := {
  init_interval : option Q;
  init_topics : option (list string);
  init_listenOnly : option bool;
  init_broadcastOnSubscribe : option bool;
  init_backoffOnSubscribe : option Q
}.

(** [init = {}] *)
Definition empty_init : PubsubPeerDiscoveryInit :=
  {| init_interval := None; init_topics := None; init_listenOnly := None;
     init_broadcastOnSubscribe := None; init_backoffOnSubscribe := None |}.

(** [{ ...init, topics }] *)
Definition with_topics (ts : option (list string)) (init : PubsubPeerDiscoveryInit)
    : PubsubPeerDiscoveryInit :=
  {| init_interval := init_interval init; init_topics := ts;
     init_listenOnly := init_listenOnly init;
     init_broadcastOnSubscribe := init_broadcastOnSubscribe init;
     init_backoffOnSubscribe := init_backoffOnSubscribe init |}.

(** The nullish coalescing operator [a ?? b]. *)
Definition nullish {A} (a : option A) (b : A) : A :=
  match a with Some x => x | None => b end.
Infix "??" := nullish (at level 45, left associativity).

(** The product [this.backoffOnSubscribe * Math.random()] as the source
    computes it, on doubles.  The engine below carries the exact product in
    [Q]; this one is kept to show where the two part. *)
Definition double_product (b r : PrimFloat.float) : PrimFloat.float :=
  PrimFloat.mul b r.

(** Handles returned by [setInterval] and [setTimeout]. *)
Definition TimerId := nat.

Variant TimerKind := SetInterval | SetTimeout.

(** A pending timer.  Both callbacks of the source, the one given to
    [setInterval] and the one given to [setTimeout], are
    [() => { this._broadcast() }], so a timer records no callback. *)
Record Timer := { timer_id : TimerId; timer_kind : TimerKind; timer_delay : Q }.

Definition is_timeout (t : Timer) : bool :=
  match timer_kind t with SetTimeout => true | SetInterval => false end.

(** Calls received by the pubsub transport, in the order they are made. *)
Inductive PubSubCall :=
| Subscribe (t : string)
| Unsubscribe (t : string)
| Publish (t : string) (payload : bytes)
| AddMessageListener
| RemoveMessageListener
| AddSubscriptionChangeListener.

(** How a call ends: it returns, or it throws. *)
Inductive Completion (A : Type) :=
| Return (a : A)
| Throw (e : Exception).
Arguments Return {A} a.
Arguments Throw {A} e.

Section Engine.

Context {X : Externals}.

(** [PubSubPeerDiscoveryComponents].  The address manager is a reference
    to an object of the host; the addresses it reports live in the
    [World]. *)
Record PubSubPeerDiscoveryComponents := {
  peerId : PeerId;
  pubsub : option unit        (* [pubsub?: PubSub]; the transport's state is in the [World] *)
}.

(** The fields of the class. *)
Record PubSubPeerDiscovery := {
  interval : Q;
  listenOnly : bool;
  topics : list string;
  broadcastOnSubscribe : bool;
  backoffOnSubscribe : Q;
  intervalId : option TimerId;
  components : PubSubPeerDiscoveryComponents
}.

(** [constructor (components, init = {})] *)
Definition constructor (c : PubSubPeerDiscoveryComponents)
    (init : PubsubPeerDiscoveryInit) : PubSubPeerDiscovery :=
  let interval := init_interval init ?? 10000%Q in
  {| components := c;
     interval := interval;
     listenOnly := init_listenOnly init ?? false;
     broadcastOnSubscribe := init_broadcastOnSubscribe init ?? false;
     backoffOnSubscribe := init_backoffOnSubscribe init ?? (interval * (1 # 10))%Q;
     topics := match init_topics init with
               | Some ((_ :: _) as ts) => ts
               | _ => [TOPIC]
               end;
     intervalId := None |}.

(** ** The world around an instance *)

(** Lines written through [log] and [log.error]. *)
Inductive LogLine :=
| LogBroadcasting (t : string)            (* 'broadcasting our peer data on topic %s' *)
| LogDiscovered (p : PeerId) (t : string) (* 'discovered peer %p on %s' *)
| LogError (e : Exception).

(** [PeerInfo], the detail of a ['peer'] event. *)
Record PeerInfo := {
  id : PeerId;
  multiaddrs : list Multiaddr;
  protocols : list string
}.

(** A promise returned by [peerIdFromKeys(peer.publicKey)] in [_onMessage]
    that has not been settled yet.  Its reactions close over [peer] and
    [message.topic]. *)
Record Pending := { pending_peer : PBPeer.Peer; pending_topic : string }.

Record World := {
  (* the pubsub transport: calls received, listeners it holds for this instance *)
  calls : list PubSubCall;
  messageListener : bool;
  subscriptionChangeListeners : nat;
  (* the timer facility *)
  timers : list Timer;
  nextTimerId : TimerId;
  (* [Math.random]: the n-th draw, and how many were taken *)
  randomSource : nat -> Q;
  randomDrawn : nat;
  (* what the address manager reports *)
  addresses : list Multiaddr;
  (* promises to settle, oldest first *)
  promises : list Pending;
  (* ['peer'] events dispatched, and log lines written *)
  dispatched : list PeerInfo;
  logged : list LogLine
}.

Definition set_calls (f : list PubSubCall -> list PubSubCall) (w : World) : World :=
  {| calls := f (calls w); messageListener := messageListener w;
     subscriptionChangeListeners := subscriptionChangeListeners w;
     timers := timers w; nextTimerId := nextTimerId w;
     randomSource := randomSource w; randomDrawn := randomDrawn w;
     addresses := addresses w; promises := promises w;
     dispatched := dispatched w; logged := logged w |}.

Definition set_messageListener (b : bool) (w : World) : World :=
  {| calls := calls w; messageListener := b;
     subscriptionChangeListeners := subscriptionChangeListeners w;
     timers := timers w; nextTimerId := nextTimerId w;
     randomSource := randomSource w; randomDrawn := randomDrawn w;
     addresses := addresses w; promises := promises w;
     dispatched := dispatched w; logged := logged w |}.

Definition set_subscriptionChangeListeners (n : nat) (w : World) : World :=
  {| calls := calls w; messageListener := messageListener w;
     subscriptionChangeListeners := n;
     timers := timers w; nextTimerId := nextTimerId w;
     randomSource := randomSource w; randomDrawn := randomDrawn w;
     addresses := addresses w; promises := promises w;
     dispatched := dispatched w; logged := logged w |}.

Definition set_timers (f : list Timer -> list Timer) (w : World) : World :=
  {| calls := calls w; messageListener := messageListener w;
     subscriptionChangeListeners := subscriptionChangeListeners w;
     timers := f (timers w); nextTimerId := nextTimerId w;
     randomSource := randomSource w; randomDrawn := randomDrawn w;
     addresses := addresses w; promises := promises w;
     dispatched := dispatched w; logged := logged w |}.

Definition set_nextTimerId (n : TimerId) (w : World) : World :=
  {| calls := calls w; messageListener := messageListener w;
     subscriptionChangeListeners := subscriptionChangeListeners w;
     timers := timers w; nextTimerId := n;
     randomSource := randomSource w; randomDrawn := randomDrawn w;
     addresses := addresses w; promises := promises w;
     dispatched := dispatched w; logged := logged w |}.

Definition set_randomDrawn (n : nat) (w : World) : World :=
  {| calls := calls w; messageListener := messageListener w;
     subscriptionChangeListeners := subscriptionChangeListeners w;
     timers := timers w; nextTimerId := nextTimerId w;
     randomSource := randomSource w; randomDrawn := n;
     addresses := addresses w; promises := promises w;
     dispatched := dispatched w; logged := logged w |}.

Definition set_addresses (l : list Multiaddr) (w : World) : World :=
  {| calls := calls w; messageListener := messageListener w;
     subscriptionChangeListeners := subscriptionChangeListeners w;
     timers := timers w; nextTimerId := nextTimerId w;
     randomSource := randomSource w; randomDrawn := randomDrawn w;
     addresses := l; promises := promises w;
     dispatched := dispatched w; logged := logged w |}.

Definition set_promises (f : list Pending -> list Pending) (w : World) : World :=
  {| calls := calls w; messageListener := messageListener w;
     subscriptionChangeListeners := subscriptionChangeListeners w;
     timers := timers w; nextTimerId := nextTimerId w;
     randomSource := randomSource w; randomDrawn := randomDrawn w;
     addresses := addresses w; promises := f (promises w);
     dispatched := dispatched w; logged := logged w |}.

Definition set_dispatched (f : list PeerInfo -> list PeerInfo) (w : World) : World :=
  {| calls := calls w; messageListener := messageListener w;
     subscriptionChangeListeners := subscriptionChangeListeners w;
     timers := timers w; nextTimerId := nextTimerId w;
     randomSource := randomSource w; randomDrawn := randomDrawn w;
     addresses := addresses w; promises := promises w;
     dispatched := f (dispatched w); logged := logged w |}.

Definition set_logged (f : list LogLine -> list LogLine) (w : World) : World :=
  {| calls := calls w; messageListener := messageListener w;
     subscriptionChangeListeners := subscriptionChangeListeners w;
     timers := timers w; nextTimerId := nextTimerId w;
     randomSource := randomSource w; randomDrawn := randomDrawn w;
     addresses := addresses w; promises := promises w;
     dispatched := dispatched w; logged := f (logged w) |}.

(** A world in which nothing has happened yet. *)
Definition fresh_world (random : nat -> Q) (addrs : list Multiaddr) : World :=
  {| calls := []; messageListener := false; subscriptionChangeListeners := 0;
     timers := []; nextTimerId := 1; randomSource := random; randomDrawn := 0;
     addresses := addrs; promises := []; dispatched := []; logged := [] |}.

Definition set_intervalId (v : option TimerId) (e : PubSubPeerDiscovery)
    : PubSubPeerDiscovery :=
  {| interval := interval e; listenOnly := listenOnly e; topics := topics e;
     broadcastOnSubscribe := broadcastOnSubscribe e;
     backoffOnSubscribe := backoffOnSubscribe e;
     intervalId := v; components := components e |}.

(** ** The monad of methods *)

Definition State := (PubSubPeerDiscovery * World)%type.

Definition M (A : Type) := State -> Completion A * State.

Definition ret {A} (a : A) : M A := fun s => (Return a, s).

Definition bind {A B} (m : M A) (k : A -> M B) : M B :=
  fun s => match m s with
           | (Return a, s') => k a s'
           | (Throw e, s') => (Throw e, s')
           end.

Definition throw {A} (e : Exception) : M A := fun s => (Throw e, s).

(** [try { m } catch (err) { h(err) }], also [promise.catch(h)]. *)
Definition catch {A} (m : M A) (h : Exception -> M A) : M A :=
  fun s => match m s with
           | (Return a, s') => (Return a, s')
           | (Throw e, s') => h e s'
           end.

Notation "x <- m ;; k" := (bind m (fun x => k))
  (at level 61, m at next level, right associativity).
Notation "m ;; k" := (bind m (fun _ => k))
  (at level 61, right associativity).

(** [this] *)
Definition this : M PubSubPeerDiscovery := fun s => (Return (fst s), s).

Definition world : M World := fun s => (Return (snd s), s).

Definition update_world (f : World -> World) : M unit :=
  fun s => (Return tt, (fst s, f (snd s))).

Definition update_this (f : PubSubPeerDiscovery -> PubSubPeerDiscovery) : M unit :=
  fun s => (Return tt, (f (fst s), snd s)).

(** [for (const x of l) { body(x) }] *)
Fixpoint forEach {A} (l : list A) (body : A -> M unit) : M unit :=
  match l with
  | [] => ret tt
  | x :: l' => body x ;; forEach l' body
  end.

(** [l.map(f)] for an [f] that may throw. *)
Fixpoint mapM {A B} (f : A -> M B) (l : list A) : M (list B) :=
  match l with
  | [] => ret []
  | x :: l' => y <- f x ;; ys <- mapM f l' ;; ret (y :: ys)
  end.

(** [n] times [body] *)
Fixpoint times (n : nat) (body : M unit) : M unit :=
  match n with
  | O => ret tt
  | S n' => body ;; times n' body
  end.

(** ** What the methods call *)

(** [pubsub.subscribe(topic)] *)
Definition pubsub_subscribe (t : string) : M unit :=
  update_world (set_calls (fun c => c ++ [Subscribe t])).

(** [pubsub.unsubscribe(topic)] *)
Definition pubsub_unsubscribe (t : string) : M unit :=
  update_world (set_calls (fun c => c ++ [Unsubscribe t])).

(** [pubsub.publish(topic, data)]; the promise it returns is dropped by
    [void]. *)
Definition pubsub_publish (t : string) (payload : bytes) : M unit :=
  update_world (set_calls (fun c => c ++ [Publish t payload])).

(** [pubsub.addEventListener('message', this._onMessage)].  [_onMessage] is
    bound once, in the constructor, and an event target keeps a listener
    it is given again only once. *)
Definition pubsub_addMessageListener : M unit :=
  update_world (fun w =>
    set_messageListener true (set_calls (fun c => c ++ [AddMessageListener]) w)).

(** [pubsub.removeEventListener('message', this._onMessage)] *)
Definition pubsub_removeMessageListener : M unit :=
  update_world (fun w =>
    set_messageListener false (set_calls (fun c => c ++ [RemoveMessageListener]) w)).

(** [pubsub.addEventListener('subscription-change', subChangeEvt => ...)]:
    the arrow function is a new listener at every call. *)
Definition pubsub_addSubscriptionChangeListener : M unit :=
  update_world (fun w =>
    set_subscriptionChangeListeners (S (subscriptionChangeListeners w))
      (set_calls (fun c => c ++ [AddSubscriptionChangeListener]) w)).

Definition newTimer (k : TimerKind) (delay : Q) : M TimerId :=
  w <- world ;;
  let i := nextTimerId w in
  update_world (fun w =>
    set_nextTimerId (S i)
      (set_timers (fun ts => ts ++ [{| timer_id := i; timer_kind := k;
                                       timer_delay := delay |}]) w)) ;;
  ret i.

(** [setInterval(() => { this._broadcast() }, delay)] *)
Definition setInterval (delay : Q) : M TimerId := newTimer SetInterval delay.

(** [setTimeout(() => { this._broadcast() }, delay)] *)
Definition setTimeout (delay : Q) : M TimerId := newTimer SetTimeout delay.

Definition without_timer (i : TimerId) (ts : list Timer) : list Timer :=
  filter (fun t => negb (Nat.eqb (timer_id t) i)) ts.

(** [clearInterval(id)] *)
Definition clearInterval (i : TimerId) : M unit :=
  update_world (set_timers (without_timer i)).

(** [Math.random()] *)
Definition Math_random : M Q :=
  w <- world ;;
  update_world (set_randomDrawn (S (randomDrawn w))) ;;
  ret (randomSource w (randomDrawn w)).

(** [this.components.addressManager.getAddresses()] *)
Definition getAddresses : M (list Multiaddr) :=
  w <- world ;; ret (addresses w).

Definition log (l : LogLine) : M unit :=
  update_world (set_logged (fun ls => ls ++ [l])).

(** [this.dispatchEvent(new CustomEvent<PeerInfo>('peer', { detail }))] *)
Definition dispatchEvent (detail : PeerInfo) : M unit :=
  update_world (set_dispatched (fun es => es ++ [detail])).

(** ** The methods of [PubSubPeerDiscovery] *)

Definition isStarted : M bool :=
  e <- this ;;
  ret (match intervalId e with Some _ => true | None => false end).

Definition _broadcast : M unit :=
  e <- this ;;
  let peerId := peerId (components e) in
  match PeerId_publicKey peerId with
  | None => throw (Error "PeerId was missing public key")
  | Some publicKey =>
      mas <- getAddresses ;;
      let peer := {| PBPeer.publicKey := publicKey;
                     PBPeer.addrs := map Multiaddr_bytes mas |} in
      let encodedPeer := encode peer in
      match pubsub (components e) with
      | None => throw (Error "PubSub not configured")
      | Some _ =>
          forEach (topics e) (fun topic =>
            log (LogBroadcasting topic) ;;
            pubsub_publish topic encodedPeer)
      end
  end.

(** The listener of ['subscription-change'] that [afterStart] installs. *)
Definition onSubscriptionChange (subscriptions : list Subscription.t) : M unit :=
  e <- this ;;
  let discoverySubs :=
    filter (fun sub => includes (topics e) (Subscription.topic sub)) subscriptions in
  if Nat.ltb 0 (List.length discoverySubs) then
    random <- Math_random ;;
    let backoff := (backoffOnSubscribe e * random)%Q in
    setTimeout backoff ;;
    ret tt
  else ret tt.

Definition afterStart : M unit :=
  e <- this ;;
  match intervalId e with
  | Some _ => ret tt
  | None =>
      match pubsub (components e) with
      | None => throw (Error "PubSub not configured")
      | Some _ =>
          forEach (topics e) (fun topic =>
            pubsub_subscribe topic ;;
            pubsub_addMessageListener) ;;
          if listenOnly e then ret tt
          else
            (if broadcastOnSubscribe e
             then pubsub_addSubscriptionChangeListener
             else ret tt) ;;
            _broadcast ;;
            i <- setInterval (interval e) ;;
            update_this (set_intervalId (Some i))
      end
  end.

Definition beforeStop : M unit :=
  e <- this ;;
  match pubsub (components e) with
  | None => throw (Error "PubSub not configured")
  | Some _ =>
      forEach (topics e) (fun topic =>
        pubsub_unsubscribe topic ;;
        pubsub_removeMessageListener)
  end.

Definition stop : M unit :=
  e <- this ;;
  match intervalId e with
  | Some i =>
      clearInterval i ;;
      update_this (set_intervalId None)
  | None => ret tt
  end.

(** The part of [_onMessage] that runs when the event is dispatched.  It
    ends by calling [peerIdFromKeys], whose promise is settled later. *)
Definition _onMessage (message : Message) : M unit :=
  started <- isStarted ;;
  if negb started then ret tt
  else
    e <- this ;;
    if negb (includes (topics e) (topic message)) then ret tt
    else
      match decode (data message) with
      | None => throw DecodeError
      | Some peer =>
          update_world (set_promises (fun ps =>
            ps ++ [{| pending_peer := peer; pending_topic := topic message |}]))
      end.

(** The reactions of that promise:
    [peerIdFromKeys(peer.publicKey).then(peerId => ...).catch(err => ...)]. *)
Definition settle (p : Pending) : M unit :=
  let peer := pending_peer p in
  catch
    (match peerIdFromKeys (PBPeer.publicKey peer) with
     | None => throw InvalidKeys
     | Some peerId' =>
         e <- this ;;
         if PeerId_equals peerId' (peerId (components e)) then ret tt
         else
           log (LogDiscovered peerId' (pending_topic p)) ;;
           mas <- mapM (fun b => match multiaddr b with
                                 | Some ma => ret ma
                                 | None => throw InvalidMultiaddr
                                 end) (PBPeer.addrs peer) ;;
           dispatchEvent {| id := peerId'; multiaddrs := mas; protocols := [] |}
     end)
    (fun err => log (LogError err)).

(** ** What the host does with an instance *)

(** The transport dispatches a ['message'] event. *)
Definition deliverMessage (message : Message) : M unit :=
  w <- world ;;
  if messageListener w then _onMessage message else ret tt.

(** The transport dispatches a ['subscription-change'] event: every
    listener installed for it runs. *)
Definition deliverSubscriptionChange (subscriptions : list Subscription.t) : M unit :=
  w <- world ;;
  times (subscriptionChangeListeners w) (onSubscriptionChange subscriptions).

(** The oldest pending promise is settled. *)
Definition settleNext : M unit :=
  w <- world ;;
  match promises w with
  | [] => ret tt
  | p :: ps => update_world (set_promises (fun _ => ps)) ;; settle p
  end.

(** The timer [i] is due: its callback [() => { this._broadcast() }] runs.
    A timer made by [setTimeout] is gone after it. *)
Definition fireTimer (i : TimerId) : M unit :=
  w <- world ;;
  match find (fun t => Nat.eqb (timer_id t) i) (timers w) with
  | None => ret tt
  | Some t =>
      (if is_timeout t then update_world (set_timers (without_timer i)) else ret tt) ;;
      _broadcast
  end.

Inductive HostEvent :=
| CallAfterStart
| CallBeforeStop
| CallStop
| MessageEvent (message : Message)
| SubscriptionChangeEvent (subscriptions : list Subscription.t)
| PromiseSettles
| TimerFires (i : TimerId)
| AddressesChange (l : list Multiaddr).

Definition host (ev : HostEvent) : M unit :=
  match ev with
  | CallAfterStart => afterStart
  | CallBeforeStop => beforeStop
  | CallStop => stop
  | MessageEvent m => deliverMessage m
  | SubscriptionChangeEvent subs => deliverSubscriptionChange subs
  | PromiseSettles => settleNext
  | TimerFires i => fireTimer i
  | AddressesChange l => update_world (set_addresses l)
  end.

(** The state after a sequence of host events; an exception that reaches
    the host leaves the state as the throwing call made it. *)
Definition run (evs : list HostEvent) (s : State) : State :=
  fold_left (fun s ev => snd (host ev s)) evs s.

(** A new instance in a world where nothing has happened. *)
Definition initial (c : PubSubPeerDiscoveryComponents) (init : PubsubPeerDiscoveryInit)
    (random : nat -> Q) (addrs : list Multiaddr) : State :=
  (constructor c init, fresh_world random addrs).

Inductive reachable (s0 : State) : State -> Prop :=
| reachable_start : reachable s0 s0
| reachable_step s ev : reachable s0 s -> reachable s0 (snd (host ev s)).

(** The timer handles in use are distinct and older than the next one, and
    the handle in [intervalId] is not the handle of a [setTimeout] timer. *)
Definition timers_wf (s : State) : Prop :=
  NoDup (map timer_id (timers (snd s))) /\
  (forall t, In t (timers (snd s)) -> timer_id t < nextTimerId (snd s)) /\
  (forall i, intervalId (fst s) = Some i ->
     i < nextTimerId (snd s) /\
     forall t, In t (timers (snd s)) -> timer_id t = i -> timer_kind t = SetInterval).

(** What [timers_wf] looks at. *)
Definition timer_state (s : State) : option TimerId * list Timer * TimerId :=
  (intervalId (fst s), timers (snd s), nextTimerId (snd s)).

(** The computation [m] leaves the part [f] of the state as it is, however
    it ends. *)
Definition Frame {T A} (f : State -> T) (m : M A) : Prop :=
  forall s, f (snd (m s)) = f s.

(** A listen-only instance at rest: never marked as started, with no
    timer, no listener of ['subscription-change'], no promise to settle and
    nothing dispatched. *)
Definition listenOnly_idle (s : State) : Prop :=
  listenOnly (fst s) = true /\ intervalId (fst s) = None /\
  timers (snd s) = [] /\ subscriptionChangeListeners (snd s) = 0 /\
  promises (snd s) = [] /\ dispatched (snd s) = [].

(** The [setTimeout] timers that are pending. *)
Definition pendingTimeouts (w : World) : list Timer := filter is_timeout (timers w).

(** The [subscribe] calls among the calls the transport received. *)
Definition subscribeCalls (w : World) : list string :=
  flat_map (fun c => match c with Subscribe t => [t] | _ => [] end) (calls w).

(** [addrs.map(b => multiaddr(b))] without the monad: [None] when
    [multiaddr] throws at some element. *)
Fixpoint multiaddrs_of (l : list bytes) : option (list Multiaddr) :=
  match l with
  | [] => Some []
  | b :: l' =>
      match multiaddr b with
      | None => None
      | Some ma =>
          match multiaddrs_of l' with
          | None => None
          | Some mas => Some (ma :: mas)
          end
      end
  end.

(** ** The worlds that the loops of the methods lead to *)

(** After the loop of [afterStart] over [ts]. *)
Definition subscribed (ts : list string) (w : World) : World :=
  set_messageListener (match ts with [] => messageListener w | _ => true end)
    (set_calls (fun c => c ++ flat_map (fun t => [Subscribe t; AddMessageListener]) ts) w).

(** After the loop of [beforeStop] over [ts]. *)
Definition unsubscribed (ts : list string) (w : World) : World :=
  set_messageListener (match ts with [] => messageListener w | _ => false end)
    (set_calls (fun c => c ++ flat_map (fun t => [Unsubscribe t; RemoveMessageListener]) ts) w).

(** After [pubsub.addEventListener('subscription-change', ...)]. *)
Definition with_subscriptionChangeListener (w : World) : World :=
  set_subscriptionChangeListeners (S (subscriptionChangeListeners w))
    (set_calls (fun c => c ++ [AddSubscriptionChangeListener]) w).

(** After [setInterval] or [setTimeout]. *)
Definition with_timer (k : TimerKind) (delay : Q) (w : World) : World :=
  set_nextTimerId (S (nextTimerId w))
    (set_timers (fun ts => ts ++ [{| timer_id := nextTimerId w; timer_kind := k;
                                     timer_delay := delay |}]) w).

(** The world in which [afterStart], not listen-only, calls
    [this._broadcast()]. *)
Definition before_broadcast (e : PubSubPeerDiscovery) (w : World) : World :=
  if broadcastOnSubscribe e
  then with_subscriptionChangeListener (subscribed (topics e) w)
  else subscribed (topics e) w.

(** After the loop of [_broadcast] over [ts]. *)
Definition published (ts : list string) (payload : bytes) (w : World) : World :=
  set_logged (fun ls => ls ++ map LogBroadcasting ts)
    (set_calls (fun c => c ++ map (fun t => Publish t payload) ts) w).

(** What [_broadcast] publishes in the world [w]: the public key with the
    addresses that the address manager reports in [w]. *)
Definition announcement (publicKey : bytes) (w : World) : bytes :=
  encode {| PBPeer.publicKey := publicKey;
            PBPeer.addrs := map Multiaddr_bytes (addresses w) |}.



(** ** The rest of the source, and more ways to look at a state *)

(** [start (): void { }] *)
Definition start : M unit := ret tt.

(** [export function pubsubPeerDiscovery (init = {})] *)
Definition pubsubPeerDiscovery (init : PubsubPeerDiscoveryInit)
    : PubSubPeerDiscoveryComponents -> PubSubPeerDiscovery :=
  fun components => constructor components init.

(** The [publish] calls among the calls the transport received. *)
Definition publishCalls (w : World) : list (string * bytes) :=
  flat_map (fun c => match c with Publish t p => [(t, p)] | _ => [] end) (calls w).

(** The topic that a transport call names, when it names one. *)
Definition call_topic (c : PubSubCall) : option string :=
  match c with
  | Subscribe t | Unsubscribe t | Publish t _ => Some t
  | _ => None
  end.

(** Every transport call that names a topic names a configured one. *)
Definition on_configured_topics (s : State) : Prop :=
  forall c t, In c (calls (snd s)) -> call_topic c = Some t -> In t (topics (fst s)).

Definition is_interval (t : Timer) : bool :=
  match timer_kind t with SetInterval => true | SetTimeout => false end.

(** The [setInterval] timers that are pending. *)
Definition pendingIntervals (w : World) : list Timer := filter is_interval (timers w).

(** The pending [setInterval] timers are the one that [intervalId] names,
    set with the delay [interval], when [intervalId] is set, and none
    otherwise. *)
Definition interval_tracked (s : State) : Prop :=
  pendingIntervals (snd s) =
  match intervalId (fst s) with
  | Some i => [{| timer_id := i; timer_kind := SetInterval;
                  timer_delay := interval (fst s) |}]
  | None => []
  end.

(** The [readonly] fields of an instance: all of it but [intervalId]. *)
Definition readonly_fields (e : PubSubPeerDiscovery) : PubSubPeerDiscovery :=
  set_intervalId None e.

(** An instance without a transport on which nothing has had an effect. *)
Definition inert (s : State) : Prop :=
  pubsub (components (fst s)) = None /\ intervalId (fst s) = None /\
  calls (snd s) = [] /\ messageListener (snd s) = false /\
  subscriptionChangeListeners (snd s) = 0 /\ timers (snd s) = [] /\
  promises (snd s) = [] /\ dispatched (snd s) = [] /\ logged (snd s) = [].

End Engine.

(** ** A codec and collaborators to run the engine with *)

Module Sample.

(** Base-128 length, least significant group first. *)
Definition byte_of_N (n : N) : byte :=
  match Byte.of_N n with Some b => b | None => x00 end.

Fixpoint varint_fuel (fuel : nat) (n : N) : bytes :=
  match fuel with
  | O => []
  | S fuel' =>
      if (n <? 128)%N then [byte_of_N n]
      else byte_of_N (128 + n mod 128) :: varint_fuel fuel' (n / 128)
  end.

Definition varint (n : N) : bytes := varint_fuel (S (N.to_nat (N.log2 n))) n.

Fixpoint read_varint (shift : N) (bs : bytes) : option (N * bytes) :=
  match bs with
  | [] => None
  | b :: rest =>
      let v := Byte.to_N b in
      if (v <? 128)%N then Some (v * 2 ^ shift, rest)%N
      else match read_varint (shift + 7) rest with
           | Some (hi, rest') => Some ((v - 128) * 2 ^ shift + hi, rest')%N
           | None => None
           end
  end.

Definition field (b : bytes) : bytes := varint (N.of_nat (List.length b)) ++ b.

(** One length-prefixed field; [None] when it is truncated. *)
Definition read_field (bs : bytes) : option (bytes * bytes) :=
  match read_varint 0 bs with
  | None => None
  | Some (n, rest) =>
      let n := N.to_nat n in
      if Nat.leb n (List.length rest) then Some (firstn n rest, skipn n rest) else None
  end.

Fixpoint read_fields (fuel : nat) (bs : bytes) : option (list bytes) :=
  match bs, fuel with
  | [], _ => Some []
  | _, O => None
  | _, S fuel' =>
      match read_field bs with
      | None => None
      | Some (f, rest) =>
          match read_fields fuel' rest with
          | None => None
          | Some fs => Some (f :: fs)
          end
      end
  end.

(** Modelled from the spec: the Announcement codec of [./peer.js], which
    is not among the sources.  The spec fixes its contract only: [encode]
    is total and deterministic, [decode] fails when the required public
    key is missing and when a length-prefixed field is truncated.  The
    layout here (the public key, then the addresses, each after its
    length) is one codec with that contract. *)
Definition encode (p : PBPeer.Peer) : bytes :=
  field (PBPeer.publicKey p) ++ flat_map field (PBPeer.addrs p).

Definition decode (bs : bytes) : option PBPeer.Peer :=
  match read_fields (List.length bs) bs with
  | Some (((_ :: _) as pk) :: addrs) =>
      Some {| PBPeer.publicKey := pk; PBPeer.addrs := addrs |}
  | _ => None
  end.

(** A peer identifier: its multihash, and the public key when it is
    known. *)
Record PeerId := { multihash : bytes; publicKey : option bytes }.

(** Stand-ins for [@libp2p/peer-id] and [@multiformats/multiaddr]: the
    identifier of a key is the key itself, the empty key is refused; a
    multiaddr is its bytes, the empty one is refused. *)
Definition externals : Externals :=
  @Build_Externals
    (* PeerId, publicKey, equals *)
    PeerId publicKey (fun a b => bytes_eqb (multihash a) (multihash b))
    (* peerIdFromKeys *)
    (fun k => match k with
              | [] => None
              | _ => Some {| multihash := k; publicKey := Some k |}
              end)
    (* Multiaddr, bytes, multiaddr *)
    bytes (fun ma => ma) (fun b => match b with [] => None | _ => Some b end)
    (* PBPeer *)
    encode decode.
#[local] Existing Instance externals.

Definition keyX : bytes := [x08; x01; x12; x02; xaa; xbb].
Definition keyY : bytes := [x08; x01; x12; x02; xcc; xdd].
Definition addr1 : bytes := [x04; x7f; x00; x00; x01; x06; x0f; xa1].
Definition addr2 : bytes := [x04; x0a; x00; x00; x02; x06; x0f; xa1].

Definition nodeY : PeerId := {| multihash := keyY; publicKey := Some keyY |}.
Definition nodeY_without_key : PeerId := {| multihash := keyY; publicKey := None |}.

(** The announcement of node X, and a payload cut short. *)
Definition announcementX : bytes :=
  encode {| PBPeer.publicKey := keyX; PBPeer.addrs := [addr1; addr2] |}.
Definition truncated : bytes := firstn 4 announcementX.

Definition wired : PubSubPeerDiscoveryComponents :=
  {| peerId := nodeY; pubsub := Some tt |}.
Definition wired_without_key : PubSubPeerDiscoveryComponents :=
  {| peerId := nodeY_without_key; pubsub := Some tt |}.

(** Every draw of [Math.random] is one half. *)
Definition half : nat -> Q := fun _ => (1 # 2)%Q.

Definition listening : PubsubPeerDiscoveryInit :=
  {| init_interval := None; init_topics := None; init_listenOnly := Some true;
     init_broadcastOnSubscribe := None; init_backoffOnSubscribe := None |}.

Definition eager (backoff : option Q) : PubsubPeerDiscoveryInit :=
  {| init_interval := None; init_topics := None; init_listenOnly := None;
     init_broadcastOnSubscribe := Some true; init_backoffOnSubscribe := backoff |}.

Definition listening_eager : PubsubPeerDiscoveryInit :=
  {| init_interval := None; init_topics := None; init_listenOnly := Some true;
     init_broadcastOnSubscribe := Some true; init_backoffOnSubscribe := None |}.

(** Node X announces itself on the default topic. *)
Definition messageX : Message := {| topic := TOPIC; data := announcementX |}.
Definition nodeX : PeerId := {| multihash := keyX; publicKey := Some keyX |}.

(** Node Y hears its own announcement. *)
Definition messageY : Message :=
  {| topic := TOPIC;
     data := encode {| PBPeer.publicKey := keyY; PBPeer.addrs := [addr1] |} |}.

(** A payload that is not an announcement, on the default topic. *)
Definition malformed : Message := {| topic := TOPIC; data := truncated |}.

(** A peer subscribes to the default topic. *)
Definition peerSubscribes : list Subscription.t :=
  [{| Subscription.topic := TOPIC; Subscription.subscribe := true |}].

(** Components without a transport, and the components of node X. *)
Definition unwired : PubSubPeerDiscoveryComponents :=
  {| peerId := nodeY; pubsub := None |}.
Definition wiredX : PubSubPeerDiscoveryComponents :=
  {| peerId := nodeX; pubsub := Some tt |}.

(** An announcement of node X in which one address is no multiaddr. *)
Definition announcedX_bad_address : PBPeer.Peer :=
  {| PBPeer.publicKey := keyX; PBPeer.addrs := [addr1; []] |}.

(** A peer unsubscribes from the default topic. *)
Definition peerUnsubscribes : list Subscription.t :=
  [{| Subscription.topic := TOPIC; Subscription.subscribe := false |}].

End Sample.

(** * Properties *)

Section EngineFacts.

Context {X : Externals}.

Notation "x <- m ;; k" := (bind m (fun x => k))
  (at level 61, m at next level, right associativity).
Notation "m ;; k" := (bind m (fun _ => k))
  (at level 61, right associativity).

(** ** The constructor *)

(** C10.  Constructing the engine with [topics: []] gives the same instance
    as constructing it without [topics], and its topic list is the single
    default topic ['_peer-discovery._p2p._pubsub']. *)
Theorem constructor_empty_topics_is_default :
  forall (c : PubSubPeerDiscoveryComponents) (init : PubsubPeerDiscoveryInit),
    constructor c (with_topics (Some []) init) = constructor c (with_topics None init) /\
    topics (constructor c (with_topics (Some []) init)) = [TOPIC] /\
    TOPIC = "_peer-discovery._p2p._pubsub".
Proof.
  intros c init. repeat split.
Qed.

(** The topic list of a new instance is never empty. *)
Lemma constructor_topics_nonempty c init : topics (constructor c init) <> [].
Proof.
  unfold constructor; cbn.
  destruct (init_topics init) as [[|t ts]|]; discriminate.
Qed.

(** Topics that are given and not empty are used as they are. *)
Lemma constructor_given_topics c init t ts :
  init_topics init = Some (t :: ts) -> topics (constructor c init) = t :: ts.
Proof. intros H. unfold constructor; cbn. now rewrite H. Qed.

(** ** Sequencing *)

Lemma bind_return {A B} (m : M A) (k : A -> M B) s a s' :
  m s = (Return a, s') -> bind m k s = k a s'.
Proof. intros H. unfold bind. now rewrite H. Qed.

Lemma bind_throw {A B} (m : M A) (k : A -> M B) s err s' :
  m s = (Throw err, s') -> bind m k s = (Throw err, s').
Proof. intros H. unfold bind. now rewrite H. Qed.

(** ** Loops over the topics *)

Lemma forEach_subscribe ts : forall e w,
  forEach ts (fun topic => pubsub_subscribe topic ;; pubsub_addMessageListener) (e, w)
  = (Return tt, (e, subscribed ts w)).
Proof.
  induction ts as [|t ts IH]; intros e w.
  - cbn. unfold ret. do 2 f_equal. destruct w; unfold subscribed, set_messageListener, set_calls; cbn.
    now rewrite app_nil_r.
  - cbn [forEach]. unfold bind at 1. cbn. rewrite IH. do 2 f_equal.
    destruct w; unfold subscribed, set_messageListener, set_calls; cbn.
    rewrite <- !app_assoc. cbn. now destruct ts.
Qed.

Lemma forEach_unsubscribe ts : forall e w,
  forEach ts (fun topic => pubsub_unsubscribe topic ;; pubsub_removeMessageListener) (e, w)
  = (Return tt, (e, unsubscribed ts w)).
Proof.
  induction ts as [|t ts IH]; intros e w.
  - cbn. unfold ret. do 2 f_equal. destruct w; unfold unsubscribed, set_messageListener, set_calls; cbn.
    now rewrite app_nil_r.
  - cbn [forEach]. unfold bind at 1. cbn. rewrite IH. do 2 f_equal.
    destruct w; unfold unsubscribed, set_messageListener, set_calls; cbn.
    rewrite <- !app_assoc. cbn. now destruct ts.
Qed.

Lemma forEach_publish payload ts : forall e w,
  forEach ts (fun topic => log (LogBroadcasting topic) ;; pubsub_publish topic payload) (e, w)
  = (Return tt, (e, published ts payload w)).
Proof.
  induction ts as [|t ts IH]; intros e w.
  - cbn. unfold ret. do 2 f_equal. destruct w; unfold published, set_logged, set_calls; cbn.
    now rewrite !app_nil_r.
  - cbn [forEach]. unfold bind at 1. cbn. rewrite IH. do 2 f_equal.
    destruct w; unfold published, set_logged, set_calls; cbn.
    now rewrite <- !app_assoc.
Qed.

(** ** [_broadcast] *)

Lemma _broadcast_without_key e w :
  PeerId_publicKey (peerId (components e)) = None ->
  _broadcast (e, w) = (Throw (Error "PeerId was missing public key"), (e, w)).
Proof. intros H. unfold _broadcast, bind, this; cbn. now rewrite H. Qed.

Lemma _broadcast_without_pubsub e w k :
  PeerId_publicKey (peerId (components e)) = Some k ->
  pubsub (components e) = None ->
  _broadcast (e, w) = (Throw (Error "PubSub not configured"), (e, w)).
Proof. intros H1 H2. unfold _broadcast, bind, this; cbn. now rewrite H1, H2. Qed.

Lemma _broadcast_with_key e w k :
  PeerId_publicKey (peerId (components e)) = Some k ->
  pubsub (components e) <> None ->
  _broadcast (e, w) = (Return tt, (e, published (topics e) (announcement k w) w)).
Proof.
  intros H1 H2. unfold _broadcast, bind, this; cbn. rewrite H1; cbn.
  destruct (pubsub (components e)) as [u|]; [|contradiction].
  apply forEach_publish.
Qed.

(** C7.  With the transport configured, [_broadcast] throws exactly when the
    local peer has no public key.  When it has one, [_broadcast] returns,
    and what the transport received is one [publish] per configured topic,
    in order, each with the same bytes: the encoding of the public key and
    of the addresses that the address manager reports at the call. *)
Theorem broadcast_throws_iff_no_key_else_publishes :
  forall (e : PubSubPeerDiscovery) (w : World),
    pubsub (components e) <> None ->
    ((exists err, fst (_broadcast (e, w)) = Throw err) <->
     PeerId_publicKey (peerId (components e)) = None) /\
    (forall k, PeerId_publicKey (peerId (components e)) = Some k ->
       let payload :=
         encode {| PBPeer.publicKey := k;
                   PBPeer.addrs := map Multiaddr_bytes (addresses w) |} in
       _broadcast (e, w) = (Return tt, (e, published (topics e) payload w)) /\
       calls (snd (snd (_broadcast (e, w)))) =
         calls w ++ map (fun t => Publish t payload) (topics e)).
Proof.
  intros e w Hp. split.
  - destruct (PeerId_publicKey (peerId (components e))) as [k|] eqn:Hk.
    + rewrite (_broadcast_with_key _ w Hk Hp). cbn. split.
      * intros [err Herr]. discriminate.
      * discriminate.
    + rewrite (_broadcast_without_key _ w Hk). cbn. split; eauto.
  - intros k Hk payload. rewrite (_broadcast_with_key _ w Hk Hp). split; reflexivity.
Qed.

(** ** [_onMessage] and the promise it leaves *)

Lemma _onMessage_not_started e w m :
  intervalId e = None -> _onMessage m (e, w) = (Return tt, (e, w)).
Proof. intros H. unfold _onMessage, isStarted, bind, this; cbn. now rewrite H. Qed.

Lemma _onMessage_other_topic e w m :
  includes (topics e) (topic m) = false -> _onMessage m (e, w) = (Return tt, (e, w)).
Proof.
  intros H. unfold _onMessage, isStarted, bind, this; cbn.
  destruct (intervalId e); cbn; [now rewrite H | reflexivity].
Qed.

Lemma _onMessage_decode_failure e w m i :
  intervalId e = Some i ->
  includes (topics e) (topic m) = true ->
  decode (data m) = None ->
  _onMessage m (e, w) = (Throw DecodeError, (e, w)).
Proof.
  intros H1 H2 H3. unfold _onMessage, isStarted, bind, this; cbn.
  now rewrite H1; cbn; rewrite H2; cbn; rewrite H3.
Qed.

Lemma _onMessage_decoded e w m i peer :
  intervalId e = Some i ->
  includes (topics e) (topic m) = true ->
  decode (data m) = Some peer ->
  _onMessage m (e, w) =
    (Return tt,
     (e, set_promises (fun ps => ps ++ [{| pending_peer := peer;
                                           pending_topic := topic m |}]) w)).
Proof.
  intros H1 H2 H3. unfold _onMessage, isStarted, bind, this; cbn.
  now rewrite H1; cbn; rewrite H2; cbn; rewrite H3.
Qed.

(** C1.  On a started instance, a message on a configured topic whose
    payload does not decode makes [_onMessage] throw: [PBPeer.decode] is
    called outside the promise chain whose [catch] writes to the log, so
    the exception leaves the handler and reaches the transport that
    dispatched the event, and no line is logged.  The instance and the
    world are as before the message. *)
Theorem decode_failure_is_thrown_out_of_onMessage :
  forall (e : PubSubPeerDiscovery) (w : World) (m : Message) (i : TimerId),
    intervalId e = Some i ->
    includes (topics e) (topic m) = true ->
    decode (data m) = None ->
    _onMessage m (e, w) = (Throw DecodeError, (e, w)) /\
    logged (snd (snd (_onMessage m (e, w)))) = logged w /\
    (messageListener w = true ->
     deliverMessage m (e, w) = (Throw DecodeError, (e, w))).
Proof.
  intros e w m i Hi Ht Hd.
  pose proof (@_onMessage_decode_failure e w m i Hi Ht Hd) as E.
  rewrite E. repeat split.
  intros Hl. unfold deliverMessage.
  rewrite bind_return with (a := w) (s' := (e, w)) by reflexivity.
  now rewrite Hl.
Qed.

(** C6.  A message whose topic is not among the configured topics leaves
    the instance and the world as they are, whatever its payload: no
    promise is left behind, so no ['peer'] event can come of it, and none
    is dispatched. *)
Theorem onMessage_ignores_other_topics :
  forall (e : PubSubPeerDiscovery) (w : World) (m : Message),
    includes (topics e) (topic m) = false ->
    _onMessage m (e, w) = (Return tt, (e, w)) /\
    deliverMessage m (e, w) = (Return tt, (e, w)) /\
    dispatched (snd (snd (_onMessage m (e, w)))) = dispatched w /\
    promises (snd (snd (_onMessage m (e, w)))) = promises w.
Proof.
  intros e w m H. pose proof (_onMessage_other_topic e w m H) as E.
  rewrite E. repeat split.
  unfold deliverMessage, bind, world; cbn. destruct (messageListener w); [exact E | reflexivity].
Qed.

Lemma settle_own_announcement e w p pid :
  peerIdFromKeys (PBPeer.publicKey (pending_peer p)) = Some pid ->
  PeerId_equals pid (peerId (components e)) = true ->
  settle p (e, w) = (Return tt, (e, w)).
Proof.
  intros H1 H2. unfold settle, catch, bind, this; cbn. rewrite H1; cbn. now rewrite H2.
Qed.

Lemma settle_invalid_key e w p :
  peerIdFromKeys (PBPeer.publicKey (pending_peer p)) = None ->
  settle p (e, w) = (Return tt, (e, set_logged (fun ls => ls ++ [LogError InvalidKeys]) w)).
Proof. intros H1. unfold settle, catch, bind, this; cbn. now rewrite H1. Qed.

Lemma mapM_multiaddr l : forall s,
  mapM (fun b => match multiaddr b with
                 | Some ma => ret ma
                 | None => throw InvalidMultiaddr
                 end) l s
  = match multiaddrs_of l with
    | Some mas => (Return mas, s)
    | None => (Throw InvalidMultiaddr, s)
    end.
Proof.
  induction l as [|b l IH]; intros s; cbn.
  - reflexivity.
  - unfold bind at 1. destruct (multiaddr b) as [ma|]; cbn; [|reflexivity].
    unfold bind at 1. rewrite IH. now destruct (multiaddrs_of l).
Qed.

Lemma settle_other_peer e w p pid mas :
  peerIdFromKeys (PBPeer.publicKey (pending_peer p)) = Some pid ->
  PeerId_equals pid (peerId (components e)) = false ->
  multiaddrs_of (PBPeer.addrs (pending_peer p)) = Some mas ->
  settle p (e, w) =
    (Return tt,
     (e, set_dispatched (fun es => es ++ [{| id := pid; multiaddrs := mas; protocols := [] |}])
           (set_logged (fun ls => ls ++ [LogDiscovered pid (pending_topic p)]) w))).
Proof.
  intros H1 H2 H3. unfold settle, catch; cbn. rewrite H1.
  unfold bind at 1. unfold this; cbn. rewrite H2.
  unfold bind at 1. cbn. unfold bind at 1. rewrite mapM_multiaddr, H3. reflexivity.
Qed.

Lemma deliverMessage_eq m e w :
  deliverMessage m (e, w) =
  if messageListener w then _onMessage m (e, w) else (Return tt, (e, w)).
Proof. unfold deliverMessage, bind, world; cbn. now destruct (messageListener w). Qed.

Lemma settleNext_nil e w :
  promises w = [] -> settleNext (e, w) = (Return tt, (e, w)).
Proof. intros H. unfold settleNext, bind, world; cbn. now rewrite H. Qed.

Lemma settleNext_cons e w p ps :
  promises w = p :: ps ->
  settleNext (e, w) = settle p (e, set_promises (fun _ => ps) w).
Proof. intros H. unfold settleNext, bind, world; cbn. now rewrite H. Qed.

(** C5.  When the public key of a message resolves to the identifier of
    this node, [_onMessage] returns without an exception, leaving at most
    the promise of that resolution; settling it, at any later state of the
    instance, changes nothing: no ['peer'] event and no log line.  From a
    world with no other promise pending, delivering the message and
    settling leaves the state as it was. *)
Theorem onMessage_self_filter :
  forall (e : PubSubPeerDiscovery) (w : World) (m : Message)
         (peer : PBPeer.Peer) (pid : PeerId),
    decode (data m) = Some peer ->
    peerIdFromKeys (PBPeer.publicKey peer) = Some pid ->
    PeerId_equals pid (peerId (components e)) = true ->
    let p := {| pending_peer := peer; pending_topic := topic m |} in
    (_onMessage m (e, w) = (Return tt, (e, w)) \/
     _onMessage m (e, w) = (Return tt, (e, set_promises (fun ps => ps ++ [p]) w))) /\
    (forall e' w', components e' = components e -> settle p (e', w') = (Return tt, (e', w'))) /\
    (promises w = [] -> run [MessageEvent m; PromiseSettles] (e, w) = (e, w)).
Proof.
  intros e w m peer pid Hd Hk Hs p.
  assert (Hsettle : forall e' w', components e' = components e ->
                                  settle p (e', w') = (Return tt, (e', w'))).
  { intros e' w' Hc. apply settle_own_announcement with (pid := pid); [exact Hk|].
    now rewrite Hc. }
  assert (Hon : _onMessage m (e, w) = (Return tt, (e, w)) \/
                _onMessage m (e, w) = (Return tt, (e, set_promises (fun ps => ps ++ [p]) w))).
  { destruct (intervalId e) as [i|] eqn:Hi.
    - destruct (includes (topics e) (topic m)) eqn:Ht.
      + right. now apply _onMessage_decoded with (i := i).
      + left. now apply _onMessage_other_topic.
    - left. now apply _onMessage_not_started. }
  repeat split; [exact Hon | exact Hsettle |].
  intros Hp. unfold run; cbn [fold_left host].
  rewrite deliverMessage_eq. destruct (messageListener w).
  - destruct Hon as [E|E]; rewrite E; cbn [snd].
    + now rewrite settleNext_nil.
    + rewrite settleNext_cons with (p := p) (ps := []) by (cbn; now rewrite Hp).
      rewrite Hsettle by reflexivity. cbn [snd].
      f_equal. destruct w; cbn in *. now subst.
  - cbn [snd]. now rewrite settleNext_nil.
Qed.

(** ** Parts of the state that a computation leaves alone *)

Section Frames.

Context {T : Type} (f : State -> T).

Lemma frame_ret {A} (a : A) : Frame f (ret a).
Proof. intros s. reflexivity. Qed.

Lemma frame_throw {A} err : Frame f (@throw X A err).
Proof. intros s. reflexivity. Qed.

Lemma frame_this : Frame f this.
Proof. intros s. reflexivity. Qed.

Lemma frame_world : Frame f world.
Proof. intros s. reflexivity. Qed.

Lemma frame_bind {A B} (m : M A) (k : A -> M B) :
  Frame f m -> (forall a, Frame f (k a)) -> Frame f (bind m k).
Proof.
  intros Hm Hk s. unfold bind. specialize (Hm s).
  destruct (m s) as [[a|err] s1]; cbn in *.
  - now rewrite Hk.
  - exact Hm.
Qed.

Lemma frame_catch {A} (m : M A) (h : Exception -> M A) :
  Frame f m -> (forall err, Frame f (h err)) -> Frame f (catch m h).
Proof.
  intros Hm Hh s. unfold catch. specialize (Hm s).
  destruct (m s) as [[a|err] s1]; cbn in *.
  - exact Hm.
  - now rewrite Hh.
Qed.

Lemma frame_forEach {A} (l : list A) (body : A -> M unit) :
  (forall x, Frame f (body x)) -> Frame f (forEach l body).
Proof.
  intros Hb. induction l as [|x l IH]; cbn.
  - apply frame_ret.
  - apply frame_bind; auto.
Qed.

Lemma frame_mapM {A B} (g : A -> M B) (l : list A) :
  (forall x, Frame f (g x)) -> Frame f (mapM g l).
Proof.
  intros Hg. induction l as [|x l IH]; cbn.
  - apply frame_ret.
  - apply frame_bind; [auto|]. intros y.
    apply frame_bind; [auto|]. intros ys. apply frame_ret.
Qed.

Lemma frame_update_world (g : World -> World) :
  (forall e w, f (e, g w) = f (e, w)) -> Frame f (update_world g).
Proof. intros H [e w]. apply H. Qed.

End Frames.

Create HintDb frame.
#[local] Hint Resolve frame_ret frame_throw frame_this frame_world : frame.

(** Takes a computation apart along its binds, loops and branches. *)
Ltac frame :=
  repeat match goal with
         | |- Frame _ (bind _ _) => apply frame_bind; [|intro]
         | |- Frame _ (catch _ _) => apply frame_catch; [|intro]
         | |- Frame _ (forEach _ _) => apply frame_forEach; intro
         | |- Frame _ (mapM _ _) => apply frame_mapM; intro
         | |- Frame _ (update_world _) => apply frame_update_world; intros; reflexivity
         | |- Frame _ (match ?x with _ => _ end) => destruct x
         | |- Frame _ _ => solve [auto with frame]
         end.

Lemma _broadcast_frames_timers : Frame timer_state _broadcast.
Proof. unfold _broadcast, getAddresses, log, pubsub_publish. frame. Qed.

Lemma _onMessage_frames_timers m : Frame timer_state (_onMessage m).
Proof. unfold _onMessage, isStarted. frame. Qed.

Lemma settle_frames_timers p : Frame timer_state (settle p).
Proof. unfold settle, log, dispatchEvent. frame. Qed.

Lemma beforeStop_frames_timers : Frame timer_state beforeStop.
Proof.
  unfold beforeStop, pubsub_unsubscribe, pubsub_removeMessageListener. frame.
Qed.

(** ** [afterStart], [beforeStop] and [stop] *)

Lemma afterStart_started e w i :
  intervalId e = Some i -> afterStart (e, w) = (Return tt, (e, w)).
Proof. intros H. unfold afterStart, bind, this; cbn. now rewrite H. Qed.

Lemma afterStart_without_pubsub e w :
  intervalId e = None -> pubsub (components e) = None ->
  afterStart (e, w) = (Throw (Error "PubSub not configured"), (e, w)).
Proof. intros H1 H2. unfold afterStart, bind, this; cbn. now rewrite H1, H2. Qed.

Lemma afterStart_listenOnly e w :
  intervalId e = None -> pubsub (components e) <> None -> listenOnly e = true ->
  afterStart (e, w) = (Return tt, (e, subscribed (topics e) w)).
Proof.
  intros H1 H2 H3. unfold afterStart.
  rewrite bind_return with (a := e) (s' := (e, w)) by reflexivity.
  rewrite H1. destruct (pubsub (components e)) as [u|]; [|contradiction].
  rewrite bind_return with (a := tt) (s' := (e, subscribed (topics e) w))
    by apply forEach_subscribe.
  now rewrite H3.
Qed.

Lemma afterStart_reaches_broadcast e w :
  intervalId e = None -> pubsub (components e) <> None -> listenOnly e = false ->
  afterStart (e, w) =
  (_broadcast ;;
   i <- setInterval (interval e) ;;
   update_this (set_intervalId (Some i))) (e, before_broadcast e w).
Proof.
  intros H1 H2 H3. unfold afterStart.
  rewrite bind_return with (a := e) (s' := (e, w)) by reflexivity.
  rewrite H1. destruct (pubsub (components e)) as [u|]; [|contradiction].
  rewrite bind_return with (a := tt) (s' := (e, subscribed (topics e) w))
    by apply forEach_subscribe.
  rewrite H3. unfold before_broadcast.
  destruct (broadcastOnSubscribe e).
  - now rewrite bind_return with (a := tt)
      (s' := (e, with_subscriptionChangeListener (subscribed (topics e) w))).
  - now rewrite bind_return with (a := tt) (s' := (e, subscribed (topics e) w)).
Qed.

Lemma afterStart_without_key e w :
  intervalId e = None -> pubsub (components e) <> None -> listenOnly e = false ->
  PeerId_publicKey (peerId (components e)) = None ->
  afterStart (e, w) =
    (Throw (Error "PeerId was missing public key"), (e, before_broadcast e w)).
Proof.
  intros H1 H2 H3 H4. rewrite afterStart_reaches_broadcast by assumption.
  now apply bind_throw, _broadcast_without_key.
Qed.

Lemma afterStart_broadcasting e w k :
  intervalId e = None -> pubsub (components e) <> None -> listenOnly e = false ->
  PeerId_publicKey (peerId (components e)) = Some k ->
  let w1 := before_broadcast e w in
  afterStart (e, w) =
    (Return tt,
     (set_intervalId (Some (nextTimerId w)) e,
      with_timer SetInterval (interval e)
        (published (topics e) (announcement k w1) w1))).
Proof.
  intros H1 H2 H3 H4 w1. rewrite afterStart_reaches_broadcast by assumption.
  fold w1.
  rewrite bind_return with (a := tt)
    (s' := (e, published (topics e) (announcement k w1) w1))
    by now apply _broadcast_with_key.
  unfold setInterval, newTimer, bind, world, update_world, update_this, ret; cbn.
  do 3 f_equal. unfold w1, before_broadcast. now destruct (broadcastOnSubscribe e).
Qed.

Lemma beforeStop_without_pubsub e w :
  pubsub (components e) = None ->
  beforeStop (e, w) = (Throw (Error "PubSub not configured"), (e, w)).
Proof. intros H. unfold beforeStop, bind, this; cbn. now rewrite H. Qed.

Lemma beforeStop_with_pubsub e w :
  pubsub (components e) <> None ->
  beforeStop (e, w) = (Return tt, (e, unsubscribed (topics e) w)).
Proof.
  intros H. unfold beforeStop.
  rewrite bind_return with (a := e) (s' := (e, w)) by reflexivity.
  destruct (pubsub (components e)) as [u|]; [|contradiction].
  apply forEach_unsubscribe.
Qed.

Lemma stop_not_started e w :
  intervalId e = None -> stop (e, w) = (Return tt, (e, w)).
Proof. intros H. unfold stop, bind, this; cbn. now rewrite H. Qed.

Lemma stop_started e w i :
  intervalId e = Some i ->
  stop (e, w) = (Return tt, (set_intervalId None e, set_timers (without_timer i) w)).
Proof. intros H. unfold stop, bind, this; cbn. now rewrite H. Qed.

(** C4.  [beforeStop] does not look at [intervalId], as [afterStart] and
    [stop] do.  On an instance that was never started ([intervalId] is
    unset) and has a transport, [beforeStop] followed by [stop] returns
    without an exception and the transport receives, for each configured
    topic in order, one [unsubscribe] and one removal of the message
    listener, and nothing else; timers, promises and the instance itself
    are as before. *)
Theorem beforeStop_stop_when_never_started :
  forall (e : PubSubPeerDiscovery) (w : World),
    intervalId e = None ->
    pubsub (components e) <> None ->
    (beforeStop ;; stop) (e, w) = (Return tt, (e, unsubscribed (topics e) w)) /\
    run [CallBeforeStop; CallStop] (e, w) = (e, unsubscribed (topics e) w) /\
    calls (unsubscribed (topics e) w) =
      calls w ++ flat_map (fun t => [Unsubscribe t; RemoveMessageListener]) (topics e) /\
    timers (unsubscribed (topics e) w) = timers w.
Proof.
  intros e w Hi Hp. repeat split.
  - rewrite bind_return with (a := tt) (s' := (e, unsubscribed (topics e) w))
      by now apply beforeStop_with_pubsub.
    now apply stop_not_started.
  - unfold run; cbn [fold_left host].
    rewrite beforeStop_with_pubsub by assumption. cbn [snd].
    now rewrite stop_not_started.
Qed.

(** Once [intervalId] is set, a second [afterStart] does nothing. *)
Lemma afterStart_again_when_broadcasting e w k :
  intervalId e = None -> pubsub (components e) <> None -> listenOnly e = false ->
  PeerId_publicKey (peerId (components e)) = Some k ->
  run [CallAfterStart; CallAfterStart] (e, w) = run [CallAfterStart] (e, w).
Proof.
  intros H1 H2 H3 H4. unfold run; cbn [fold_left host].
  pose proof (@afterStart_broadcasting e w k H1 H2 H3 H4) as E. cbv zeta in E.
  rewrite E. cbn [snd].
  now rewrite afterStart_started with (i := nextTimerId w).
Qed.

Lemma subscribeCalls_subscribed ts w :
  subscribeCalls (subscribed ts w) = subscribeCalls w ++ ts.
Proof.
  unfold subscribeCalls, subscribed; cbn. rewrite flat_map_app. f_equal.
  induction ts as [|t ts IH]; cbn; [reflexivity | now rewrite IH].
Qed.

(** C3.  On a listen-only instance with a transport, [afterStart] returns
    before it sets [intervalId], so the test at its top does not hold at
    the next call: calling [afterStart] twice in succession subscribes to
    every configured topic twice. *)
Theorem listenOnly_afterStart_twice_subscribes_twice :
  forall (e : PubSubPeerDiscovery) (w : World),
    intervalId e = None ->
    pubsub (components e) <> None ->
    listenOnly e = true ->
    run [CallAfterStart; CallAfterStart] (e, w) =
      (e, subscribed (topics e) (subscribed (topics e) w)) /\
    subscribeCalls (snd (run [CallAfterStart] (e, w))) = subscribeCalls w ++ topics e /\
    subscribeCalls (snd (run [CallAfterStart; CallAfterStart] (e, w))) =
      subscribeCalls w ++ topics e ++ topics e.
Proof.
  intros e w H1 H2 H3. unfold run; cbn [fold_left host].
  rewrite afterStart_listenOnly by assumption. cbn [snd].
  rewrite afterStart_listenOnly by assumption. cbn [snd].
  repeat split.
  - apply subscribeCalls_subscribed.
  - now rewrite !subscribeCalls_subscribed, app_assoc.
Qed.

(** ** The listener of ['subscription-change'] *)

Lemma filter_nonempty_existsb {A} (f : A -> bool) (l : list A) :
  Nat.ltb 0 (List.length (filter f l)) = existsb f l.
Proof.
  induction l as [|x l IH]; cbn; [reflexivity|].
  destruct (f x); cbn; [reflexivity | exact IH].
Qed.

Lemma onSubscriptionChange_other_topics e w subs :
  existsb (fun sub => includes (topics e) (Subscription.topic sub)) subs = false ->
  onSubscriptionChange subs (e, w) = (Return tt, (e, w)).
Proof.
  intros H. unfold onSubscriptionChange.
  rewrite bind_return with (a := e) (s' := (e, w)) by reflexivity.
  now rewrite filter_nonempty_existsb, H.
Qed.

Lemma onSubscriptionChange_discovery_topic e w subs :
  existsb (fun sub => includes (topics e) (Subscription.topic sub)) subs = true ->
  onSubscriptionChange subs (e, w) =
    (Return tt,
     (e, with_timer SetTimeout (backoffOnSubscribe e * randomSource w (randomDrawn w))%Q
           (set_randomDrawn (S (randomDrawn w)) w))).
Proof.
  intros H. unfold onSubscriptionChange.
  rewrite bind_return with (a := e) (s' := (e, w)) by reflexivity.
  now rewrite filter_nonempty_existsb, H.
Qed.

(** The bound on the product [backoffOnSubscribe * Math.random()], from
    what a product keeps when it is rounded to the nearest double: for a
    finite [b] that is not negative, [b * 0] is not negative, [b * 1] is at
    most [b], and [b * r] grows with [r].  A strict bound is not among
    these: a rounded product can reach [b]. *)
Section RoundedProduct.

Variable num : Type.
Variable le : num -> num -> Prop.
Variable mul : num -> num -> num.
Variables zero one : num.

Hypothesis le_trans : forall a b c, le a b -> le b c -> le a c.
Hypothesis mul_zero : forall b, le zero b -> le zero (mul b zero).
Hypothesis mul_one : forall b, le zero b -> le (mul b one) b.
Hypothesis mul_monotone :
  forall b r r', le zero b -> le r r' -> le (mul b r) (mul b r').


End RoundedProduct.


(** ** Timer handles *)

Lemma timers_wf_frame s s' :
  timer_state s' = timer_state s -> timers_wf s -> timers_wf s'.
Proof.
  unfold timer_state, timers_wf. intros E. injection E as E1 E2 E3.
  now rewrite E1, E2, E3.
Qed.

Lemma without_timer_incl i ts t : In t (without_timer i ts) -> In t ts.
Proof. unfold without_timer. intros H. now apply filter_In in H. Qed.

Lemma NoDup_without_timer i ts :
  NoDup (map timer_id ts) -> NoDup (map timer_id (without_timer i ts)).
Proof.
  induction ts as [|t ts IH]; cbn; [trivial|].
  intros H. inversion H as [|? ? Hn Hd]; subst.
  destruct (Nat.eqb (timer_id t) i); cbn; [now apply IH|].
  constructor; [|now apply IH].
  intros Hin. apply Hn. apply in_map_iff in Hin as [t' [E Hin]].
  apply in_map_iff. exists t'. split; [exact E | now apply without_timer_incl in Hin].
Qed.

Lemma timers_wf_cleared e e' w w' i :
  timers_wf (e, w) ->
  timers w' = without_timer i (timers w) ->
  nextTimerId w' = nextTimerId w ->
  intervalId e' = None \/ intervalId e' = intervalId e ->
  timers_wf (e', w').
Proof.
  intros (Hd & Hlt & Hi) Ht Hn He. unfold timers_wf in *; cbn [fst snd] in *.
  rewrite Ht, Hn. split; [now apply NoDup_without_timer|]. split.
  - intros t Hin. apply Hlt. now apply without_timer_incl in Hin.
  - intros j Hj. destruct He as [He|He]; rewrite He in Hj; [discriminate|].
    destruct (Hi j Hj) as [Hj1 Hj2]. split; [exact Hj1|].
    intros t Hin. apply Hj2. now apply without_timer_incl in Hin.
Qed.

Lemma timers_wf_added e e' w w' k d :
  timers_wf (e, w) ->
  timers w' = timers w ++ [{| timer_id := nextTimerId w; timer_kind := k;
                              timer_delay := d |}] ->
  nextTimerId w' = S (nextTimerId w) ->
  (k = SetTimeout /\ intervalId e' = intervalId e) \/
  (k = SetInterval /\ intervalId e' = Some (nextTimerId w)) ->
  timers_wf (e', w').
Proof.
  intros (Hd & Hlt & Hi) Ht Hn He. unfold timers_wf in *; cbn [fst snd] in *.
  rewrite Ht, Hn. split; [|split].
  - rewrite map_app; cbn. apply NoDup_app; [exact Hd | |].
    + constructor; [intros [] | constructor].
    + intros a Ha [E|[]]. apply in_map_iff in Ha as [t [E' Hin]].
      apply Hlt in Hin. lia.
  - intros t Hin. apply in_app_iff in Hin as [Hin|[E|[]]].
    + apply Hlt in Hin. lia.
    + subst t; cbn. lia.
  - intros j Hj. destruct He as [[Hk He]|[Hk He]]; rewrite He in Hj.
    + destruct (Hi j Hj) as [Hj1 Hj2]. split; [lia|].
      intros t Hin Ej. apply in_app_iff in Hin as [Hin|[E|[]]].
      * now apply Hj2.
      * subst t; cbn in Ej. lia.
    + injection Hj as <-. split; [lia|].
      intros t Hin Ej. apply in_app_iff in Hin as [Hin|[E|[]]].
      * apply Hlt in Hin. lia.
      * now subst t.
Qed.

Lemma afterStart_timers_wf s : timers_wf s -> timers_wf (snd (afterStart s)).
Proof.
  destruct s as [e w]. intros H.
  destruct (intervalId e) as [i|] eqn:Hi.
  { now rewrite afterStart_started with (i := i). }
  destruct (pubsub (components e)) as [u|] eqn:Hp.
  2:{ now rewrite afterStart_without_pubsub. }
  assert (Hp' : pubsub (components e) <> None) by (rewrite Hp; discriminate).
  destruct (listenOnly e) eqn:Hl.
  { rewrite afterStart_listenOnly by assumption. revert H. now apply timers_wf_frame. }
  assert (Hb : forall w', timer_state (e, before_broadcast e w') = timer_state (e, w')).
  { intros w'. unfold before_broadcast. now destruct (broadcastOnSubscribe e). }
  destruct (PeerId_publicKey (peerId (components e))) as [k|] eqn:Hk.
  - pose proof (@afterStart_broadcasting e w k Hi Hp' Hl Hk) as E. cbv zeta in E.
    rewrite E. cbn [snd].
    apply timers_wf_added with (e := e) (w := w) (k := SetInterval) (d := interval e);
      [exact H | | | right; split; reflexivity].
    + unfold before_broadcast. now destruct (broadcastOnSubscribe e).
    + unfold before_broadcast. now destruct (broadcastOnSubscribe e).
  - rewrite afterStart_without_key by assumption. cbn [snd].
    revert H. apply timers_wf_frame. apply Hb.
Qed.

Lemma stop_timers_wf s : timers_wf s -> timers_wf (snd (stop s)).
Proof.
  destruct s as [e w]. intros H. destruct (intervalId e) as [i|] eqn:Hi.
  - rewrite stop_started with (i := i) by assumption. cbn [snd].
    apply timers_wf_cleared with (e := e) (w := w) (i := i); auto.
  - now rewrite stop_not_started.
Qed.

Lemma onSubscriptionChange_timers_wf subs s :
  timers_wf s -> timers_wf (snd (onSubscriptionChange subs s)).
Proof.
  destruct s as [e w]. intros H.
  destruct (existsb (fun sub => includes (topics e) (Subscription.topic sub)) subs) eqn:Hs.
  - rewrite onSubscriptionChange_discovery_topic by assumption. cbn [snd].
    eapply timers_wf_added with (e := e) (w := w); [exact H | reflexivity | reflexivity |].
    left. split; reflexivity.
  - now rewrite onSubscriptionChange_other_topics.
Qed.

Lemma times_preserves (P : State -> Prop) (body : M unit) :
  (forall s, P s -> P (snd (body s))) ->
  forall n s, P s -> P (snd (times n body s)).
Proof.
  intros Hb. induction n as [|n IH]; intros s Hs; cbn.
  - exact Hs.
  - unfold bind. specialize (Hb s Hs). destruct (body s) as [[[]|err] s1]; cbn in *.
    + now apply IH.
    + exact Hb.
Qed.

Lemma fireTimer_eq i s :
  fireTimer i s =
  match find (fun t => Nat.eqb (timer_id t) i) (timers (snd s)) with
  | None => (Return tt, s)
  | Some t =>
      _broadcast (fst s, if is_timeout t
                         then set_timers (without_timer i) (snd s)
                         else snd s)
  end.
Proof.
  destruct s as [e w]. unfold fireTimer.
  rewrite bind_return with (a := w) (s' := (e, w)) by reflexivity. cbn [fst snd].
  destruct (find _ (timers w)) as [t|]; [|reflexivity].
  destruct (is_timeout t); now erewrite bind_return by reflexivity.
Qed.

Lemma fireTimer_timers_wf i s : timers_wf s -> timers_wf (snd (fireTimer i s)).
Proof.
  intros H. rewrite fireTimer_eq.
  destruct (find _ (timers (snd s))) as [t|]; [|exact H].
  eapply timers_wf_frame; [apply _broadcast_frames_timers|].
  destruct s as [e w]; cbn [fst snd] in *. destruct (is_timeout t); [|exact H].
  apply timers_wf_cleared with (e := e) (w := w) (i := i); auto.
Qed.

Lemma settleNext_frames_timers : Frame timer_state settleNext.
Proof.
  unfold settleNext. apply frame_bind; [apply frame_world|]. intros w.
  destruct (promises w); [apply frame_ret|].
  apply frame_bind; [|intros; apply settle_frames_timers].
  apply frame_update_world. reflexivity.
Qed.

(** Every step of the host keeps the timer handles well-formed. *)
Lemma host_timers_wf ev s : timers_wf s -> timers_wf (snd (host ev s)).
Proof.
  intros H. destruct ev; cbn [host].
  - now apply afterStart_timers_wf.
  - eapply timers_wf_frame; [apply beforeStop_frames_timers | exact H].
  - now apply stop_timers_wf.
  - destruct s as [e w]. rewrite deliverMessage_eq. destruct (messageListener w); [|exact H].
    eapply timers_wf_frame; [apply _onMessage_frames_timers | exact H].
  - unfold deliverSubscriptionChange.
    rewrite bind_return with (a := snd s) (s' := s) by reflexivity.
    apply times_preserves; [|exact H]. intros s'. apply onSubscriptionChange_timers_wf.
  - eapply timers_wf_frame; [apply settleNext_frames_timers | exact H].
  - now apply fireTimer_timers_wf.
  - revert H. apply timers_wf_frame. now destruct s.
Qed.

Lemma initial_timers_wf c init random addrs :
  timers_wf (initial c init random addrs).
Proof.
  unfold timers_wf, initial; cbn. split; [constructor|]. split.
  - intros t [].
  - intros i Hi. discriminate.
Qed.

Lemma reachable_timers_wf s0 s : timers_wf s0 -> reachable s0 s -> timers_wf s.
Proof. intros H0 Hr. induction Hr; [exact H0 | now apply host_timers_wf]. Qed.

Lemma reachable_run evs : forall s0 s, reachable s0 s -> reachable s0 (run evs s).
Proof.
  induction evs as [|ev evs IH]; intros s0 s Hr; cbn.
  - exact Hr.
  - apply IH. now constructor.
Qed.

(** ** Stopping and the timers *)

Lemma filter_timeouts_without_interval i ts :
  (forall t, In t ts -> timer_id t = i -> timer_kind t = SetInterval) ->
  filter is_timeout (without_timer i ts) = filter is_timeout ts.
Proof.
  induction ts as [|t ts IH]; intros H; cbn; [reflexivity|].
  destruct (Nat.eqb (timer_id t) i) eqn:E; cbn.
  - apply Nat.eqb_eq in E. unfold is_timeout at 2.
    rewrite (H t (or_introl eq_refl) E). apply IH.
    intros t' Hin. apply H. now right.
  - destruct (is_timeout t); [f_equal|]; apply IH; intros t' Hin; apply H; now right.
Qed.

Lemma find_timer ts t :
  NoDup (map timer_id ts) -> In t ts ->
  find (fun t' => Nat.eqb (timer_id t') (timer_id t)) ts = Some t.
Proof.
  induction ts as [|t0 ts IH]; cbn; intros Hd Hin; [contradiction|].
  inversion Hd as [|? ? Hn Hd']; subst.
  destruct Hin as [->|Hin].
  - now rewrite Nat.eqb_refl.
  - destruct (Nat.eqb (timer_id t0) (timer_id t)) eqn:E; [|now apply IH].
    apply Nat.eqb_eq in E. exfalso. apply Hn. rewrite E. now apply in_map.
Qed.

Lemma beforeStop_keeps e w :
  exists w', snd (beforeStop (e, w)) = (e, w') /\
             timers w' = timers w /\ nextTimerId w' = nextTimerId w.
Proof.
  destruct (pubsub (components e)) as [u|] eqn:Hp.
  - exists (unsubscribed (topics e) w).
    rewrite beforeStop_with_pubsub by (rewrite Hp; discriminate). now repeat split.
  - exists w. rewrite beforeStop_without_pubsub by assumption. now repeat split.
Qed.

(** C9.  In every state that the instance can reach, [beforeStop] followed
    by [stop] unsets [intervalId] and removes from the pending timers the
    one it named, and no other: the timers made by [setTimeout] in the
    listener of ['subscription-change'] are all still pending.  When such a
    timer is due after the stop, its callback runs [_broadcast], which has
    no check of [isStarted]: with a public key and a transport it publishes
    on every configured topic. *)
Theorem stop_cancels_only_the_interval_timer :
  forall c init random addrs (s : State),
    reachable (initial c init random addrs) s ->
    let s' := run [CallBeforeStop; CallStop] s in
    intervalId (fst s') = None /\
    timers (snd s') =
      match intervalId (fst s) with
      | Some i => without_timer i (timers (snd s))
      | None => timers (snd s)
      end /\
    pendingTimeouts (snd s') = pendingTimeouts (snd s) /\
    (forall t, In t (pendingTimeouts (snd s)) ->
       In t (timers (snd s')) /\
       fireTimer (timer_id t) s' =
         _broadcast (fst s', set_timers (without_timer (timer_id t)) (snd s')) /\
       (forall k, PeerId_publicKey (peerId (components (fst s'))) = Some k ->
                  pubsub (components (fst s')) <> None ->
          calls (snd (snd (fireTimer (timer_id t) s'))) =
            calls (snd s') ++
            map (fun tp => Publish tp (announcement k (snd s'))) (topics (fst s')))).
Proof.
  intros c init random addrs s Hr s'.
  pose proof (reachable_timers_wf (initial_timers_wf c init random addrs) Hr) as Hwf.
  assert (Hwf' : timers_wf s').
  { unfold s', run; cbn [fold_left]. now do 2 apply host_timers_wf. }
  destruct s as [e w]. cbn [fst snd] in *.
  destruct (beforeStop_keeps e w) as (wb & Eb & Etb & Enb).
  assert (Es' : s' = snd (stop (e, wb))).
  { unfold s', run; cbn [fold_left host]. now rewrite Eb. }
  assert (Ht : timers (snd s') =
               match intervalId e with
               | Some i => without_timer i (timers w)
               | None => timers w
               end /\ intervalId (fst s') = None).
  { rewrite Es'. destruct (intervalId e) as [i|] eqn:Hi.
    - rewrite stop_started with (i := i) by assumption. cbn. now rewrite Etb.
    - rewrite stop_not_started by assumption. cbn. now rewrite Etb, Hi. }
  destruct Ht as [Ht Hi'].
  assert (Hp : pendingTimeouts (snd s') = pendingTimeouts w).
  { unfold pendingTimeouts. rewrite Ht. destruct (intervalId e) as [i|] eqn:Hi; [|reflexivity].
    apply filter_timeouts_without_interval.
    destruct Hwf as (_ & _ & Hint). cbn [fst snd] in Hint.
    now destruct (Hint i Hi). }
  repeat split; [exact Hi' | exact Ht | exact Hp | | |].
  - rewrite <- Hp in H. unfold pendingTimeouts in H. now apply filter_In in H.
  - rewrite <- Hp in H. unfold pendingTimeouts in H. apply filter_In in H as [Hin Hk].
    rewrite fireTimer_eq. destruct Hwf' as (Hd & _).
    now rewrite (@find_timer _ t Hd Hin), Hk.
  - intros k Hk Hps.
    rewrite <- Hp in H. unfold pendingTimeouts in H. apply filter_In in H as [Hin Hto].
    rewrite fireTimer_eq. destruct Hwf' as (Hd & _).
    rewrite (@find_timer _ t Hd Hin), Hto.
    now rewrite _broadcast_with_key with (k := k).
Qed.

(** ** Broadcasting when a peer subscribes *)

Lemma deliverSubscriptionChange_one_listener e w subs :
  subscriptionChangeListeners w = 1 ->
  deliverSubscriptionChange subs (e, w) =
    (onSubscriptionChange subs ;; ret tt) (e, w).
Proof.
  intros H. unfold deliverSubscriptionChange.
  rewrite bind_return with (a := w) (s' := (e, w)) by reflexivity.
  now rewrite H.
Qed.

Lemma deliverSubscriptionChange_no_listener e w subs :
  subscriptionChangeListeners w = 0 ->
  deliverSubscriptionChange subs (e, w) = (Return tt, (e, w)).
Proof.
  intros H. unfold deliverSubscriptionChange.
  rewrite bind_return with (a := w) (s' := (e, w)) by reflexivity.
  now rewrite H.
Qed.


(** ** Messages that are discovered, and listen-only instances *)

(** On a started instance, a message on a configured topic that decodes,
    whose key resolves to another peer and whose addresses parse, gives one
    ['peer'] event once its promise is settled. *)
Lemma valid_message_is_discovered e w m i peer pid mas :
  intervalId e = Some i ->
  messageListener w = true ->
  promises w = [] ->
  includes (topics e) (topic m) = true ->
  decode (data m) = Some peer ->
  peerIdFromKeys (PBPeer.publicKey peer) = Some pid ->
  PeerId_equals pid (peerId (components e)) = false ->
  multiaddrs_of (PBPeer.addrs peer) = Some mas ->
  run [MessageEvent m; PromiseSettles] (e, w) =
    (e, set_dispatched (fun es => es ++ [{| id := pid; multiaddrs := mas; protocols := [] |}])
          (set_logged (fun ls => ls ++ [LogDiscovered pid (topic m)]) w)).
Proof.
  intros Hi Hl Hp Ht Hd Hk Hs Ha. unfold run; cbn [fold_left host].
  rewrite deliverMessage_eq, Hl.
  rewrite _onMessage_decoded with (i := i) (peer := peer) by assumption. cbn [snd].
  rewrite settleNext_cons
    with (p := {| pending_peer := peer; pending_topic := topic m |}) (ps := [])
    by (cbn; now rewrite Hp).
  rewrite settle_other_peer with (pid := pid) (mas := mas) by assumption.
  cbn [snd]. f_equal. destruct w; cbn in *. now subst.
Qed.

Lemma host_listenOnly_idle ev s : listenOnly_idle s -> listenOnly_idle (snd (host ev s)).
Proof.
  destruct s as [e w]. intros (Hl & Hi & Ht & Hn & Hp & Hd). cbn [fst snd] in *.
  unfold listenOnly_idle. destruct ev; cbn [host].
  - destruct (pubsub (components e)) as [u|] eqn:Hps.
    + rewrite afterStart_listenOnly by (try rewrite Hps; easy). now cbn.
    + rewrite afterStart_without_pubsub by assumption. now cbn.
  - destruct (pubsub (components e)) as [u|] eqn:Hps.
    + rewrite beforeStop_with_pubsub by (rewrite Hps; discriminate). now cbn.
    + rewrite beforeStop_without_pubsub by assumption. now cbn.
  - rewrite stop_not_started by assumption. now cbn.
  - rewrite deliverMessage_eq, _onMessage_not_started by assumption.
    now destruct (messageListener w); cbn.
  - rewrite deliverSubscriptionChange_no_listener by assumption. now cbn.
  - rewrite settleNext_nil by assumption. now cbn.
  - rewrite fireTimer_eq. cbn [fst snd]. rewrite Ht. now cbn.
  - now cbn.
Qed.

(** C2.  An instance made with [listenOnly: true] is never marked as
    started: [afterStart] returns before it sets [intervalId], and
    [isStarted()] reads [intervalId].  So whatever the host does with it,
    and whatever messages arrive, [_onMessage] returns at its first test,
    and no ['peer'] event is ever dispatched. *)
Theorem listenOnly_never_discovers :
  forall c init random addrs (s : State),
    init_listenOnly init = Some true ->
    reachable (initial c init random addrs) s ->
    intervalId (fst s) = None /\
    isStarted s = (Return false, s) /\
    (forall m, _onMessage m s = (Return tt, s)) /\
    dispatched (snd s) = [].
Proof.
  intros c init random addrs s Hl Hr.
  assert (H : listenOnly_idle s).
  { induction Hr.
    - unfold listenOnly_idle, initial, constructor; cbn. now rewrite Hl.
    - now apply host_listenOnly_idle. }
  destruct H as (_ & Hi & _ & _ & _ & Hd). destruct s as [e w]; cbn [fst snd] in *.
  repeat split; [exact Hi | | | exact Hd].
  - unfold isStarted, bind, this; cbn. now rewrite Hi.
  - intros m. now apply _onMessage_not_started.
Qed.

(** ** The fields that are [readonly] *)

Lemma frame_update_this {T} (f : State -> T) (g : PubSubPeerDiscovery -> PubSubPeerDiscovery) :
  (forall e w, f (g e, w) = f (e, w)) -> Frame f (update_this g).
Proof. intros H [e w]. apply H. Qed.

Lemma frame_times {T} (f : State -> T) (n : nat) (body : M unit) :
  Frame f body -> Frame f (times n body).
Proof.
  intros Hb. induction n as [|n IH]; cbn.
  - apply frame_ret.
  - apply frame_bind; auto.
Qed.

Lemma _broadcast_frames_readonly : Frame (fun s => readonly_fields (fst s)) _broadcast.
Proof. unfold _broadcast, getAddresses, log, pubsub_publish. frame. Qed.

Lemma host_frames_readonly ev : Frame (fun s => readonly_fields (fst s)) (host ev).
Proof.
  destruct ev; cbn [host].
  - unfold afterStart, pubsub_subscribe, pubsub_addMessageListener,
      pubsub_addSubscriptionChangeListener, setInterval, newTimer.
    frame; try apply _broadcast_frames_readonly.
    apply frame_update_this. reflexivity.
  - unfold beforeStop, pubsub_unsubscribe, pubsub_removeMessageListener. frame.
  - unfold stop, clearInterval. frame. apply frame_update_this. reflexivity.
  - unfold deliverMessage, _onMessage, isStarted. frame.
  - unfold deliverSubscriptionChange. apply frame_bind; [apply frame_world|]. intros w.
    apply frame_times. unfold onSubscriptionChange, Math_random, setTimeout, newTimer. frame.
  - unfold settleNext, settle, log, dispatchEvent. frame.
  - unfold fireTimer. frame; apply _broadcast_frames_readonly.
  - apply frame_update_world. reflexivity.
Qed.

(** X1.  The fields that the constructor sets and the class declares
    [readonly] never change: in every state the instance can reach, the
    instance is the constructed one up to [intervalId].  In particular its
    topic list is never empty. *)
Theorem readonly_fields_never_change :
  forall c init random addrs (s : State),
    reachable (initial c init random addrs) s ->
    fst s = set_intervalId (intervalId (fst s)) (constructor c init) /\
    topics (fst s) = topics (constructor c init) /\
    topics (fst s) <> [].
Proof.
  intros c init random addrs s Hr.
  assert (H : readonly_fields (fst s) = constructor c init).
  { induction Hr as [|s ev Hr IH].
    - reflexivity.
    - now rewrite host_frames_readonly. }
  assert (E : fst s = set_intervalId (intervalId (fst s)) (constructor c init)).
  { rewrite <- H. now destruct (fst s). }
  split; [exact E|]. split.
  - now rewrite E.
  - rewrite E. apply constructor_topics_nonempty.
Qed.

(** ** Instances without a transport, or without a public key *)

Lemma host_inert ev s : inert s -> inert (snd (host ev s)).
Proof.
  destruct s as [e w]. intros (Hp & Hi & Hc & Hm & Hn & Ht & Hpr & Hd & Hl).
  cbn [fst snd] in *. unfold inert. destruct ev; cbn [host].
  - rewrite afterStart_without_pubsub by assumption. now cbn.
  - rewrite beforeStop_without_pubsub by assumption. now cbn.
  - rewrite stop_not_started by assumption. now cbn.
  - rewrite deliverMessage_eq, Hm. now cbn.
  - rewrite deliverSubscriptionChange_no_listener by assumption. now cbn.
  - rewrite settleNext_nil by assumption. now cbn.
  - rewrite fireTimer_eq. cbn [fst snd]. rewrite Ht. now cbn.
  - now cbn.
Qed.

(** X2.  An instance wired without [pubsub] stays without effect: whatever
    the host does with it, [afterStart] and [beforeStop] throw
    'PubSub not configured' and change nothing, it is never marked as
    started, and no transport call, timer, log line or ['peer'] event ever
    comes of it. *)
Theorem without_pubsub_nothing_happens :
  forall c init random addrs (s : State),
    pubsub c = None ->
    reachable (initial c init random addrs) s ->
    afterStart s = (Throw (Error "PubSub not configured"), s) /\
    beforeStop s = (Throw (Error "PubSub not configured"), s) /\
    intervalId (fst s) = None /\
    calls (snd s) = [] /\ timers (snd s) = [] /\
    logged (snd s) = [] /\ dispatched (snd s) = [].
Proof.
  intros c init random addrs s Hc Hr.
  assert (H : inert s).
  { induction Hr as [|s ev Hr IH].
    - unfold inert, initial; cbn. now rewrite Hc.
    - now apply host_inert. }
  destruct s as [e w]. destruct H as (Hp & Hi & Hcs & _ & _ & Ht & _ & Hd & Hl).
  cbn [fst snd] in *.
  rewrite afterStart_without_pubsub, beforeStop_without_pubsub by assumption.
  now repeat split.
Qed.

Lemma subscribeCalls_before_broadcast e w :
  subscribeCalls (before_broadcast e w) = subscribeCalls w ++ topics e.
Proof.
  unfold before_broadcast. destruct (broadcastOnSubscribe e).
  - unfold with_subscriptionChangeListener, subscribeCalls; cbn.
    rewrite !flat_map_app; cbn. rewrite app_nil_r.
    f_equal. induction (topics e) as [|t ts IH]; cbn; [reflexivity | now rewrite IH].
  - apply subscribeCalls_subscribed.
Qed.

Lemma publishCalls_before_broadcast e w :
  publishCalls (before_broadcast e w) = publishCalls w.
Proof.
  assert (H : forall ts,
             flat_map (fun c => match c with Publish t p => [(t, p)] | _ => [] end)
               (flat_map (fun t => [Subscribe t; AddMessageListener]) ts) = []).
  { induction ts as [|t ts IH]; cbn; [reflexivity | exact IH]. }
  unfold before_broadcast, publishCalls. destruct (broadcastOnSubscribe e); cbn;
    rewrite !flat_map_app, H; cbn; now rewrite !app_nil_r.
Qed.

(** X3.  When the local peer has no public key, [afterStart] of an
    instance that is not listen-only throws 'PeerId was missing public key'
    out of its first broadcast, after it has subscribed to every topic and
    installed its listeners.  These stay; nothing was published and no
    timer was set; the instance is not marked as started, so it ignores the
    messages of its subscriptions, and the next [afterStart] subscribes
    once more. *)
Theorem afterStart_without_public_key :
  forall (e : PubSubPeerDiscovery) (w : World),
    intervalId e = None ->
    pubsub (components e) <> None ->
    listenOnly e = false ->
    PeerId_publicKey (peerId (components e)) = None ->
    let s1 := snd (afterStart (e, w)) in
    fst (afterStart (e, w)) = Throw (Error "PeerId was missing public key") /\
    fst s1 = e /\
    subscribeCalls (snd s1) = subscribeCalls w ++ topics e /\
    (topics e <> [] -> messageListener (snd s1) = true) /\
    publishCalls (snd s1) = publishCalls w /\
    timers (snd s1) = timers w /\
    (forall m, _onMessage m s1 = (Return tt, s1)) /\
    subscribeCalls (snd (run [CallAfterStart; CallAfterStart] (e, w))) =
      subscribeCalls w ++ topics e ++ topics e.
Proof.
  intros e w Hi Hp Hl Hk s1.
  assert (E : afterStart (e, w) =
              (Throw (Error "PeerId was missing public key"), (e, before_broadcast e w)))
    by now apply afterStart_without_key.
  unfold s1. rewrite E. cbn [fst snd]. repeat split.
  - apply subscribeCalls_before_broadcast.
  - intros Hne. unfold before_broadcast.
    destruct (broadcastOnSubscribe e); cbn; now destruct (topics e).
  - apply publishCalls_before_broadcast.
  - unfold before_broadcast. now destruct (broadcastOnSubscribe e).
  - intros m. now apply _onMessage_not_started.
  - unfold run; cbn [fold_left host]. rewrite E. cbn [snd].
    rewrite afterStart_without_key by assumption. cbn [snd].
    now rewrite !subscribeCalls_before_broadcast, app_assoc.
Qed.

(** ** A start that succeeds *)

(** X4.  On an instance that is not listen-only, has a transport and a
    public key, [afterStart] returns and marks the instance as started.
    The transport receives, in this order: [subscribe] and the message
    listener for every topic, the listener of ['subscription-change'] when
    [broadcastOnSubscribe] is set, and at once one [publish] per topic of
    the announcement built from the addresses of that moment.  One timer
    is added, by [setInterval] with the delay [interval], and [intervalId]
    names it. *)
Theorem afterStart_subscribes_broadcasts_and_sets_the_interval :
  forall (e : PubSubPeerDiscovery) (w : World) (k : bytes),
    intervalId e = None ->
    pubsub (components e) <> None ->
    listenOnly e = false ->
    PeerId_publicKey (peerId (components e)) = Some k ->
    let s1 := snd (afterStart (e, w)) in
    fst (afterStart (e, w)) = Return tt /\
    fst s1 = set_intervalId (Some (nextTimerId w)) e /\
    isStarted s1 = (Return true, s1) /\
    calls (snd s1) =
      calls w
      ++ flat_map (fun t => [Subscribe t; AddMessageListener]) (topics e)
      ++ (if broadcastOnSubscribe e then [AddSubscriptionChangeListener] else [])
      ++ map (fun t => Publish t (announcement k w)) (topics e) /\
    timers (snd s1) =
      timers w ++ [{| timer_id := nextTimerId w; timer_kind := SetInterval;
                      timer_delay := interval e |}] /\
    logged (snd s1) = logged w ++ map LogBroadcasting (topics e) /\
    dispatched (snd s1) = dispatched w.
Proof.
  intros e w k Hi Hp Hl Hk s1.
  pose proof (@afterStart_broadcasting e w k Hi Hp Hl Hk) as E. cbv zeta in E.
  unfold s1. rewrite E. cbn [fst snd]. unfold before_broadcast, announcement.
  destruct (broadcastOnSubscribe e); cbn; repeat split;
    now rewrite <- ?app_assoc, ?app_nil_r.
Qed.

(** X5.  Once [intervalId] is set, [afterStart] does nothing, however often
    it is called: after a start that succeeds, any number of further calls
    leaves the instance and the world as the first call made them. *)
Theorem afterStart_is_idempotent_once_started :
  forall (n : nat) (e : PubSubPeerDiscovery) (w : World) (k : bytes),
    intervalId e = None ->
    pubsub (components e) <> None ->
    listenOnly e = false ->
    PeerId_publicKey (peerId (components e)) = Some k ->
    run (repeat CallAfterStart (S n)) (e, w) = run [CallAfterStart] (e, w).
Proof.
  intros n e w k Hi Hp Hl Hk.
  pose proof (@afterStart_broadcasting e w k Hi Hp Hl Hk) as E. cbv zeta in E.
  unfold run at 2. cbn [repeat fold_left host]. unfold run; cbn [fold_left host].
  rewrite E. cbn [snd].
  induction n as [|n IH]; cbn [repeat fold_left host]; [reflexivity|].
  rewrite afterStart_started with (i := nextTimerId w) by reflexivity. exact IH.
Qed.

(** ** Stopping *)

Lemma without_timer_fresh i ts :
  (forall t, In t ts -> timer_id t < i) -> without_timer i ts = ts.
Proof.
  intros H. unfold without_timer. induction ts as [|t ts IH]; cbn; [reflexivity|].
  destruct (Nat.eqb_spec (timer_id t) i) as [E|_].
  - specialize (H t (or_introl eq_refl)). lia.
  - cbn. f_equal. apply IH. intros t' Hin. apply H. now right.
Qed.

(** X6.  [stop] clears the timer that [intervalId] names and unsets
    [intervalId]; a second [stop] then finds [intervalId] unset and does
    nothing.  [stop] never calls the transport. *)
Theorem stop_is_idempotent :
  forall s : State,
    run [CallStop; CallStop] s = run [CallStop] s /\
    fst (stop s) = Return tt /\
    intervalId (fst (snd (stop s))) = None /\
    calls (snd (snd (stop s))) = calls (snd s).
Proof.
  intros [e w]. unfold run; cbn [fold_left host].
  destruct (intervalId e) as [i|] eqn:Hi.
  - rewrite stop_started with (i := i) by assumption. cbn [fst snd].
    now rewrite stop_not_started.
  - rewrite !stop_not_started by assumption. cbn [fst snd].
    now rewrite stop_not_started.
Qed.

(** X7.  A start that succeeds followed by [beforeStop] and [stop] leaves
    the instance as it was before the start and the pending timers as they
    were: the timer of the start is the one cleared.  The message listener
    is removed and every topic unsubscribed; the listener of
    ['subscription-change'], when one was installed, is not removed. *)
Theorem start_then_stop_restores_the_instance :
  forall (e : PubSubPeerDiscovery) (w : World) (k : bytes),
    intervalId e = None ->
    pubsub (components e) <> None ->
    listenOnly e = false ->
    PeerId_publicKey (peerId (components e)) = Some k ->
    (forall t, In t (timers w) -> timer_id t < nextTimerId w) ->
    let s := run [CallAfterStart; CallBeforeStop; CallStop] (e, w) in
    fst s = e /\
    timers (snd s) = timers w /\
    (topics e <> [] -> messageListener (snd s) = false) /\
    subscriptionChangeListeners (snd s) =
      (if broadcastOnSubscribe e then S (subscriptionChangeListeners w)
       else subscriptionChangeListeners w) /\
    calls (snd s) =
      calls (snd (run [CallAfterStart] (e, w)))
      ++ flat_map (fun t => [Unsubscribe t; RemoveMessageListener]) (topics e).
Proof.
  intros e w k Hi Hp Hl Hk Hlt s.
  pose proof (@afterStart_broadcasting e w k Hi Hp Hl Hk) as E. cbv zeta in E.
  unfold s, run; cbn [fold_left host]. rewrite E. cbn [snd].
  rewrite beforeStop_with_pubsub by exact Hp. cbn [snd].
  rewrite stop_started with (i := nextTimerId w) by reflexivity. cbn [fst snd].
  repeat split.
  - destruct e; cbn in *. now subst.
  - unfold before_broadcast. destruct (broadcastOnSubscribe e); cbn.
    + unfold without_timer. rewrite filter_app. fold (without_timer (nextTimerId w) (timers w)).
      rewrite without_timer_fresh by exact Hlt. cbn. rewrite Nat.eqb_refl. cbn.
      now rewrite app_nil_r.
    + unfold without_timer. rewrite filter_app. fold (without_timer (nextTimerId w) (timers w)).
      rewrite without_timer_fresh by exact Hlt. cbn. rewrite Nat.eqb_refl. cbn.
      now rewrite app_nil_r.
  - intros Hne. cbn. now destruct (topics e).
  - unfold before_broadcast. now destruct (broadcastOnSubscribe e).
Qed.

(** ** What a listen-only instance never does *)

Lemma publishCalls_subscribed ts w : publishCalls (subscribed ts w) = publishCalls w.
Proof.
  unfold publishCalls, subscribed; cbn. rewrite flat_map_app.
  replace (flat_map _ (flat_map _ ts)) with (@nil (string * bytes)).
  - now rewrite app_nil_r.
  - induction ts as [|t ts IH]; cbn; [reflexivity | exact IH].
Qed.

Lemma publishCalls_unsubscribed ts w : publishCalls (unsubscribed ts w) = publishCalls w.
Proof.
  unfold publishCalls, unsubscribed; cbn. rewrite flat_map_app.
  replace (flat_map _ (flat_map _ ts)) with (@nil (string * bytes)).
  - now rewrite app_nil_r.
  - induction ts as [|t ts IH]; cbn; [reflexivity | exact IH].
Qed.

Lemma host_listenOnly_publishes_nothing ev s :
  listenOnly_idle s -> publishCalls (snd (snd (host ev s))) = publishCalls (snd s).
Proof.
  destruct s as [e w]. intros (Hl & Hi & Ht & Hn & Hp & Hd). cbn [fst snd] in *.
  destruct ev; cbn [host].
  - destruct (pubsub (components e)) as [u|] eqn:Hps.
    + rewrite afterStart_listenOnly by (try rewrite Hps; easy).
      apply publishCalls_subscribed.
    + now rewrite afterStart_without_pubsub.
  - destruct (pubsub (components e)) as [u|] eqn:Hps.
    + rewrite beforeStop_with_pubsub by (rewrite Hps; discriminate).
      apply publishCalls_unsubscribed.
    + now rewrite beforeStop_without_pubsub.
  - now rewrite stop_not_started.
  - rewrite deliverMessage_eq, _onMessage_not_started by assumption.
    now destruct (messageListener w).
  - now rewrite deliverSubscriptionChange_no_listener.
  - now rewrite settleNext_nil.
  - rewrite fireTimer_eq. cbn [fst snd]. now rewrite Ht.
  - reflexivity.
Qed.

(** X8.  An instance made with [listenOnly: true] never broadcasts:
    whatever the host does with it, the transport receives no [publish],
    and no timer is ever pending, for the interval or for a backoff, also
    when [broadcastOnSubscribe] is set. *)
Theorem listenOnly_never_publishes :
  forall c init random addrs (s : State),
    init_listenOnly init = Some true ->
    reachable (initial c init random addrs) s ->
    publishCalls (snd s) = [] /\
    timers (snd s) = [] /\
    subscriptionChangeListeners (snd s) = 0.
Proof.
  intros c init random addrs s Hl Hr.
  assert (H : listenOnly_idle s /\ publishCalls (snd s) = []).
  { induction Hr as [|s ev Hr [IH1 IH2]].
    - split; [|reflexivity].
      unfold listenOnly_idle, initial, constructor; cbn. now rewrite Hl.
    - split; [now apply host_listenOnly_idle|].
      now rewrite host_listenOnly_publishes_nothing. }
  destruct H as [(_ & _ & Ht & Hn & _) Hp]. now repeat split.
Qed.

(** ** Settling *)

Lemma settle_invalid_multiaddr e w p pid :
  peerIdFromKeys (PBPeer.publicKey (pending_peer p)) = Some pid ->
  PeerId_equals pid (peerId (components e)) = false ->
  multiaddrs_of (PBPeer.addrs (pending_peer p)) = None ->
  settle p (e, w) =
    (Return tt,
     (e, set_logged (fun ls => ls ++ [LogError InvalidMultiaddr])
           (set_logged (fun ls => ls ++ [LogDiscovered pid (pending_topic p)]) w))).
Proof.
  intros H1 H2 H3. unfold settle, catch; cbn. rewrite H1.
  unfold bind at 1. unfold this; cbn. rewrite H2.
  unfold bind at 1. cbn. unfold bind at 1. rewrite mapM_multiaddr, H3. reflexivity.
Qed.

Lemma multiaddrs_of_Some l : forall mas,
  multiaddrs_of l = Some mas -> Forall2 (fun b ma => multiaddr b = Some ma) l mas.
Proof.
  induction l as [|b l IH]; cbn; intros mas H.
  - injection H as <-. constructor.
  - destruct (multiaddr b) as [ma|] eqn:Eb; [|discriminate].
    destruct (multiaddrs_of l) as [mas'|]; [|discriminate].
    injection H as <-. constructor; [exact Eb | now apply IH].
Qed.

Lemma multiaddrs_of_None l b :
  In b l -> multiaddr b = None -> multiaddrs_of l = None.
Proof.
  induction l as [|b0 l IH]; cbn; [contradiction|].
  intros [->|Hin] Hb.
  - now rewrite Hb.
  - destruct (multiaddr b0); [|reflexivity]. now rewrite IH.
Qed.

(** X9.  Settling the promise of a message never throws: a rejected
    [peerIdFromKeys] and a throwing [multiaddr] end in [catch].  It calls
    neither the transport nor the timers and leaves the instance alone.
    It dispatches nothing, or exactly one ['peer'] event; that event
    carries the identifier the key resolves to, which is not this node's,
    one parsed address for each address of the announcement, in order, and
    no protocols. *)
Theorem settle_never_throws :
  forall (p : Pending) (e : PubSubPeerDiscovery) (w : World),
    let s' := snd (settle p (e, w)) in
    fst (settle p (e, w)) = Return tt /\
    fst s' = e /\
    calls (snd s') = calls w /\
    timers (snd s') = timers w /\
    (dispatched (snd s') = dispatched w \/
     exists info,
       dispatched (snd s') = dispatched w ++ [info] /\
       peerIdFromKeys (PBPeer.publicKey (pending_peer p)) = Some (id info) /\
       PeerId_equals (id info) (peerId (components e)) = false /\
       Forall2 (fun b ma => multiaddr b = Some ma)
         (PBPeer.addrs (pending_peer p)) (multiaddrs info) /\
       protocols info = []).
Proof.
  intros p e w s'. unfold s'.
  destruct (peerIdFromKeys (PBPeer.publicKey (pending_peer p))) as [pid|] eqn:Hk.
  2:{ rewrite settle_invalid_key by assumption. cbn. repeat split. now left. }
  destruct (PeerId_equals pid (peerId (components e))) eqn:Hs.
  { rewrite settle_own_announcement with (pid := pid) by assumption.
    cbn. repeat split. now left. }
  destruct (multiaddrs_of (PBPeer.addrs (pending_peer p))) as [mas|] eqn:Ha.
  - rewrite settle_other_peer with (pid := pid) (mas := mas) by assumption.
    cbn. repeat split. right.
    exists {| id := pid; multiaddrs := mas; protocols := [] |}. cbn.
    repeat split; [exact Hs | now apply multiaddrs_of_Some].
  - rewrite settle_invalid_multiaddr with (pid := pid) by assumption.
    cbn. repeat split. now left.
Qed.

(** X10.  One address that [multiaddr] refuses drops the whole
    announcement: when the key resolves to another peer and some address of
    the announcement does not parse, no ['peer'] event is dispatched, not
    even with the addresses that do parse.  The line 'discovered peer' is
    logged all the same, followed by the error. *)
Theorem one_invalid_address_drops_the_announcement :
  forall (p : Pending) (e : PubSubPeerDiscovery) (w : World) (pid : PeerId) (b : bytes),
    peerIdFromKeys (PBPeer.publicKey (pending_peer p)) = Some pid ->
    PeerId_equals pid (peerId (components e)) = false ->
    In b (PBPeer.addrs (pending_peer p)) ->
    multiaddr b = None ->
    fst (settle p (e, w)) = Return tt /\
    dispatched (snd (snd (settle p (e, w)))) = dispatched w /\
    logged (snd (snd (settle p (e, w)))) =
      logged w ++ [LogDiscovered pid (pending_topic p); LogError InvalidMultiaddr].
Proof.
  intros p e w pid b Hk Hs Hin Hb.
  rewrite settle_invalid_multiaddr with (pid := pid);
    [| exact Hk | exact Hs | now apply multiaddrs_of_None with (b := b)].
  cbn. repeat split. now rewrite <- app_assoc.
Qed.

(** [includes] is membership. *)
Lemma includes_true_iff l s : includes l s = true <-> In s l.
Proof.
  unfold includes. rewrite existsb_exists. split.
  - intros [x [Hin E]]. apply String.eqb_eq in E. now subst.
  - intros Hin. exists s. split; [exact Hin | apply String.eqb_refl].
Qed.

(** ** From the broadcast of one node to the discovery by another *)

(** X11.  What one node broadcasts, another discovers.  Node X, with a
    public key and a transport, publishes its announcement on each of its
    topics.  When a started node Y receives it on a topic it has
    configured, and the codec decodes what it encoded, the key resolves to
    an identifier other than Y's and the addresses parse back, Y dispatches
    exactly one ['peer'] event: the identifier of X's key with the
    addresses X's address manager reported, in order. *)
Theorem broadcast_of_one_node_is_discovered_by_another :
  forall (ex ey : PubSubPeerDiscovery) (wx wy : World)
         (kx : bytes) (idx : PeerId) (t : string) (iy : TimerId),
    PeerId_publicKey (peerId (components ex)) = Some kx ->
    pubsub (components ex) <> None ->
    In t (topics ex) ->
    intervalId ey = Some iy ->
    messageListener wy = true ->
    promises wy = [] ->
    In t (topics ey) ->
    decode (announcement kx wx) =
      Some {| PBPeer.publicKey := kx;
              PBPeer.addrs := map Multiaddr_bytes (addresses wx) |} ->
    peerIdFromKeys kx = Some idx ->
    PeerId_equals idx (peerId (components ey)) = false ->
    multiaddrs_of (map Multiaddr_bytes (addresses wx)) = Some (addresses wx) ->
    In (Publish t (announcement kx wx)) (calls (snd (snd (_broadcast (ex, wx))))) /\
    dispatched
      (snd (run [MessageEvent {| topic := t; data := announcement kx wx |}; PromiseSettles]
              (ey, wy)))
    = dispatched wy ++ [{| id := idx; multiaddrs := addresses wx; protocols := [] |}].
Proof.
  intros ex ey wx wy kx idx t iy Hkx Hpx Htx Hiy Hly Hpy Hty Hdec Hid Hneq Hma. split.
  - rewrite _broadcast_with_key with (k := kx) by assumption. cbn.
    apply in_or_app. right. apply in_map_iff. now exists t.
  - erewrite valid_message_is_discovered with (i := iy) (pid := idx) (mas := addresses wx);
      try eassumption; try reflexivity.
    now apply includes_true_iff.
Qed.

(** ** Subscription changes, once more *)

Lemma existsb_on_topics (f : string -> bool) subs :
  existsb (fun sub => f (Subscription.topic sub)) subs
  = existsb f (map Subscription.topic subs).
Proof. induction subs as [|x subs IH]; cbn; [reflexivity | now rewrite IH]. Qed.

(** X12.  The listener of ['subscription-change'] looks at the topics of
    the reported subscriptions only: whether a peer subscribed or
    unsubscribed makes no difference.  However many of the reported
    subscriptions are on configured topics, it sets one timer when there is
    at least one, and does nothing at all, not even draw a random number,
    when there is none.  It never publishes by itself. *)
Theorem onSubscriptionChange_looks_at_topics_only :
  forall (subs subs' : list Subscription.t) (e : PubSubPeerDiscovery) (w : World),
    map Subscription.topic subs = map Subscription.topic subs' ->
    let s' := snd (onSubscriptionChange subs (e, w)) in
    let hit := existsb (includes (topics e)) (map Subscription.topic subs) in
    onSubscriptionChange subs (e, w) = onSubscriptionChange subs' (e, w) /\
    fst s' = e /\
    calls (snd s') = calls w /\
    timers (snd s') =
      timers w ++
      (if hit
       then [{| timer_id := nextTimerId w; timer_kind := SetTimeout;
                timer_delay := (backoffOnSubscribe e * randomSource w (randomDrawn w))%Q |}]
       else []) /\
    randomDrawn (snd s') = (if hit then S (randomDrawn w) else randomDrawn w).
Proof.
  intros subs subs' e w Ht s' hit.
  assert (E : forall l, map Subscription.topic l = map Subscription.topic subs ->
                        existsb (fun sub => includes (topics e) (Subscription.topic sub)) l = hit).
  { intros l Hl. unfold hit. now rewrite existsb_on_topics, Hl. }
  pose proof (E subs eq_refl) as E1. pose proof (E subs' (eq_sym Ht)) as E2.
  unfold s'. destruct hit.
  - rewrite !onSubscriptionChange_discovery_topic by assumption. now cbn.
  - rewrite !onSubscriptionChange_other_topics by assumption. cbn.
    now rewrite app_nil_r.
Qed.

Lemma times_onSubscriptionChange subs e n : forall w,
  existsb (fun sub => includes (topics e) (Subscription.topic sub)) subs = true ->
  exists w',
    times n (onSubscriptionChange subs) (e, w) = (Return tt, (e, w')) /\
    List.length (pendingTimeouts w') = List.length (pendingTimeouts w) + n /\
    pendingIntervals w' = pendingIntervals w /\
    calls w' = calls w /\
    subscriptionChangeListeners w' = subscriptionChangeListeners w.
Proof.
  induction n as [|n IH]; intros w Hs; cbn [times].
  - exists w. repeat split. now rewrite Nat.add_0_r.
  - erewrite bind_return by now apply onSubscriptionChange_discovery_topic.
    destruct (IH (with_timer SetTimeout
                    (backoffOnSubscribe e * randomSource w (randomDrawn w))%Q
                    (set_randomDrawn (S (randomDrawn w)) w)) Hs)
      as (w' & E & Hl & Hi & Hc & Hn).
    exists w'. split; [exact E|]. rewrite Hl, Hi, Hc, Hn.
    unfold pendingTimeouts, pendingIntervals; cbn. rewrite !filter_app, length_app; cbn.
    repeat split; [lia | now rewrite app_nil_r].
Qed.

(** X13.  A subscription change on a configured topic sets one
    [setTimeout] timer for each listener of ['subscription-change'] that
    is installed, and none when no listener is installed; it makes no
    transport call and leaves the interval timer alone. *)
Theorem subscription_change_sets_one_timer_per_listener :
  forall (subs : list Subscription.t) (e : PubSubPeerDiscovery) (w : World),
    existsb (fun sub => includes (topics e) (Subscription.topic sub)) subs = true ->
    let s' := snd (deliverSubscriptionChange subs (e, w)) in
    fst (deliverSubscriptionChange subs (e, w)) = Return tt /\
    fst s' = e /\
    List.length (pendingTimeouts (snd s')) =
      List.length (pendingTimeouts w) + subscriptionChangeListeners w /\
    pendingIntervals (snd s') = pendingIntervals w /\
    calls (snd s') = calls w.
Proof.
  intros subs e w Hs s'. unfold s', deliverSubscriptionChange.
  rewrite bind_return with (a := w) (s' := (e, w)) by reflexivity.
  destruct (@times_onSubscriptionChange subs e (subscriptionChangeListeners w) w Hs)
    as (w' & E & Hl & Hi & Hc & _).
  rewrite E. cbn [fst snd]. now repeat split.
Qed.

Lemma start_stop_cycle e w k :
  intervalId e = None ->
  pubsub (components e) <> None ->
  listenOnly e = false ->
  PeerId_publicKey (peerId (components e)) = Some k ->
  let w1 := before_broadcast e w in
  run [CallAfterStart; CallBeforeStop; CallStop] (e, w) =
    (e, set_timers (without_timer (nextTimerId w))
          (unsubscribed (topics e)
             (with_timer SetInterval (interval e)
                (published (topics e) (announcement k w1) w1)))).
Proof.
  intros Hi Hp Hl Hk w1.
  pose proof (@afterStart_broadcasting e w k Hi Hp Hl Hk) as E. cbv zeta in E.
  unfold run; cbn [fold_left host]. rewrite E. cbn [snd].
  rewrite beforeStop_with_pubsub by exact Hp. cbn [snd].
  rewrite stop_started with (i := nextTimerId w) by reflexivity. cbn [fst snd].
  f_equal. destruct e; cbn in *. now subst.
Qed.

(** X14.  The listener of ['subscription-change'] is installed by every
    start that gets as far and removed by no stop.  After a start and a
    stop one is installed, and a subscription change on a configured topic
    still sets a broadcast timer although the instance is stopped; after
    the next start two are installed, and one subscription change sets two
    timers. *)
Theorem subscription_change_listeners_pile_up :
  forall (subs : list Subscription.t) (e : PubSubPeerDiscovery) (w : World) (k : bytes),
    intervalId e = None ->
    pubsub (components e) <> None ->
    listenOnly e = false ->
    broadcastOnSubscribe e = true ->
    PeerId_publicKey (peerId (components e)) = Some k ->
    subscriptionChangeListeners w = 0 ->
    existsb (fun sub => includes (topics e) (Subscription.topic sub)) subs = true ->
    let stopped := run [CallAfterStart; CallBeforeStop; CallStop] (e, w) in
    let restarted := run [CallAfterStart] stopped in
    (intervalId (fst stopped) = None /\
     subscriptionChangeListeners (snd stopped) = 1 /\
     List.length (pendingTimeouts (snd (run [SubscriptionChangeEvent subs] stopped))) =
       List.length (pendingTimeouts (snd stopped)) + 1) /\
    (subscriptionChangeListeners (snd restarted) = 2 /\
     List.length (pendingTimeouts (snd (run [SubscriptionChangeEvent subs] restarted))) =
       List.length (pendingTimeouts (snd restarted)) + 2).
Proof.
  intros subs e w k Hi Hp Hl Hb Hk Hn Hs stopped restarted.
  pose proof (@start_stop_cycle e w k Hi Hp Hl Hk) as E. cbv zeta in E.
  remember (set_timers (without_timer (nextTimerId w))
              (unsubscribed (topics e)
                 (with_timer SetInterval (interval e)
                    (published (topics e) (announcement k (before_broadcast e w))
                       (before_broadcast e w))))) as W eqn:EW.
  subst restarted stopped. rewrite E. cbn [fst snd].
  assert (Hn1 : subscriptionChangeListeners W = 1).
  { rewrite EW. unfold before_broadcast. rewrite Hb. cbn. now rewrite Hn. }
  assert (Hdeliver : forall e' w',
             topics e' = topics e ->
             List.length (pendingTimeouts (snd (run [SubscriptionChangeEvent subs] (e', w')))) =
             List.length (pendingTimeouts w') + subscriptionChangeListeners w').
  { intros e' w' Ht. unfold run; cbn [fold_left host]. unfold deliverSubscriptionChange.
    rewrite bind_return with (a := w') (s' := (e', w')) by reflexivity.
    assert (Hs' : existsb (fun sub => includes (topics e') (Subscription.topic sub)) subs = true)
      by now rewrite Ht.
    destruct (@times_onSubscriptionChange subs e' (subscriptionChangeListeners w') w' Hs')
      as (w'' & E' & Hl' & _).
    rewrite E'. exact Hl'. }
  split.
  - split; [exact Hi|]. split; [exact Hn1|].
    rewrite <- Hn1. now apply Hdeliver.
  - pose proof (@afterStart_broadcasting e W k Hi Hp Hl Hk) as E2. cbv zeta in E2.
    unfold run at 1 3 4; cbn [fold_left host]. rewrite E2. cbn [snd].
    assert (Hn2 : subscriptionChangeListeners
                    (with_timer SetInterval (interval e)
                       (published (topics e) (announcement k (before_broadcast e W))
                          (before_broadcast e W))) = 2).
    { unfold before_broadcast. rewrite Hb. cbn. now rewrite Hn1. }
    split; [exact Hn2|]. rewrite <- Hn2. now apply Hdeliver.
Qed.

(** ** The interval timer *)

Lemma host_keeps_interval ev s : interval (fst (snd (host ev s))) = interval (fst s).
Proof.
  change (interval (readonly_fields (fst (snd (host ev s)))) =
          interval (readonly_fields (fst s))).
  now rewrite host_frames_readonly.
Qed.

Lemma interval_tracked_frame s s' :
  timer_state s' = timer_state s -> interval (fst s') = interval (fst s) ->
  interval_tracked s -> interval_tracked s'.
Proof.
  unfold timer_state, interval_tracked, pendingIntervals.
  intros E Ei. injection E as E1 E2 E3. now rewrite E1, E2, Ei.
Qed.

Lemma filter_intervals_without_timer i ts :
  filter is_interval (without_timer i ts) = without_timer i (filter is_interval ts).
Proof.
  unfold without_timer. induction ts as [|t ts IH]; cbn; [reflexivity|].
  destruct (Nat.eqb (timer_id t) i) eqn:E, (is_interval t) eqn:Ek; cbn;
    rewrite ?E, ?Ek; cbn; now rewrite IH.
Qed.

Lemma is_timeout_not_interval t : is_timeout t = true -> timer_kind t = SetInterval -> False.
Proof. unfold is_timeout. intros H E. rewrite E in H. discriminate. Qed.

Lemma afterStart_interval_tracked s :
  interval_tracked s -> interval_tracked (snd (afterStart s)).
Proof.
  destruct s as [e w]. intros H.
  destruct (intervalId e) as [i|] eqn:Hi.
  { now rewrite afterStart_started with (i := i). }
  destruct (pubsub (components e)) as [u|] eqn:Hp.
  2:{ now rewrite afterStart_without_pubsub. }
  assert (Hp' : pubsub (components e) <> None) by (rewrite Hp; discriminate).
  destruct (listenOnly e) eqn:Hl.
  { rewrite afterStart_listenOnly by assumption. revert H.
    now apply interval_tracked_frame. }
  destruct (PeerId_publicKey (peerId (components e))) as [k|] eqn:Hk.
  - pose proof (@afterStart_broadcasting e w k Hi Hp' Hl Hk) as E. cbv zeta in E.
    rewrite E. unfold interval_tracked, pendingIntervals in *. cbn [fst snd] in *.
    rewrite Hi in H.
    unfold before_broadcast. destruct (broadcastOnSubscribe e); cbn;
      now rewrite filter_app, H.
  - rewrite afterStart_without_key by assumption. cbn [snd].
    revert H. apply interval_tracked_frame; [|reflexivity].
    unfold before_broadcast. now destruct (broadcastOnSubscribe e).
Qed.

Lemma stop_interval_tracked s :
  interval_tracked s -> interval_tracked (snd (stop s)).
Proof.
  destruct s as [e w]. intros H. destruct (intervalId e) as [i|] eqn:Hi.
  - rewrite stop_started with (i := i) by assumption.
    unfold interval_tracked, pendingIntervals in *. cbn [fst snd] in *.
    rewrite Hi in H. cbn [timers set_timers intervalId set_intervalId interval].
    rewrite filter_intervals_without_timer, H.
    unfold without_timer; cbn. now rewrite Nat.eqb_refl.
  - now rewrite stop_not_started.
Qed.

Lemma onSubscriptionChange_interval_tracked subs s :
  interval_tracked s -> interval_tracked (snd (onSubscriptionChange subs s)).
Proof.
  destruct s as [e w]. intros H.
  destruct (existsb (fun sub => includes (topics e) (Subscription.topic sub)) subs) eqn:Hs.
  - rewrite onSubscriptionChange_discovery_topic by assumption.
    unfold interval_tracked, pendingIntervals in *. cbn [fst snd] in *.
    cbn. rewrite filter_app; cbn. now rewrite app_nil_r.
  - now rewrite onSubscriptionChange_other_topics.
Qed.

Lemma fireTimer_interval_tracked i s :
  timers_wf s -> interval_tracked s -> interval_tracked (snd (fireTimer i s)).
Proof.
  intros Hwf H. rewrite fireTimer_eq.
  destruct (find _ (timers (snd s))) as [t|] eqn:Ef; [|exact H].
  apply find_some in Ef as [Hin Eid]. apply Nat.eqb_eq in Eid.
  eapply interval_tracked_frame;
    [apply _broadcast_frames_timers
    | change (interval (readonly_fields (fst (snd (_broadcast
               (fst s, if is_timeout t
                       then set_timers (without_timer i) (snd s) else snd s))))) =
              interval (fst s)); now rewrite _broadcast_frames_readonly
    |].
  destruct s as [e w]; cbn [fst snd] in *.
  destruct (is_timeout t) eqn:Ek; [|exact H].
  unfold interval_tracked, pendingIntervals in *; cbn [fst snd] in *. cbn.
  rewrite filter_intervals_without_timer, H.
  destruct (intervalId e) as [j|] eqn:Hj; [|reflexivity].
  unfold without_timer; cbn. destruct (Nat.eqb_spec j i) as [->|_]; [|reflexivity].
  exfalso. destruct Hwf as (_ & _ & Hint). cbn [fst snd] in Hint.
  destruct (Hint i Hj) as [_ Hkind]. now apply (is_timeout_not_interval t Ek), Hkind.
Qed.

Lemma host_interval_tracked ev s :
  timers_wf s /\ interval_tracked s ->
  timers_wf (snd (host ev s)) /\ interval_tracked (snd (host ev s)).
Proof.
  intros [Hwf H]. split; [now apply host_timers_wf|].
  destruct ev; cbn [host].
  - now apply afterStart_interval_tracked.
  - eapply interval_tracked_frame;
      [apply beforeStop_frames_timers | apply (host_keeps_interval CallBeforeStop) | exact H].
  - now apply stop_interval_tracked.
  - eapply interval_tracked_frame; [| apply (host_keeps_interval (MessageEvent message)) | exact H].
    destruct s as [e w]. rewrite deliverMessage_eq. destruct (messageListener w); [|reflexivity].
    apply _onMessage_frames_timers.
  - unfold deliverSubscriptionChange.
    rewrite bind_return with (a := snd s) (s' := s) by reflexivity.
    apply times_preserves; [|exact H]. intros s'. apply onSubscriptionChange_interval_tracked.
  - eapply interval_tracked_frame;
      [apply settleNext_frames_timers | apply (host_keeps_interval PromiseSettles) | exact H].
  - now apply fireTimer_interval_tracked.
  - revert H. apply interval_tracked_frame; now destruct s.
Qed.

Lemma reachable_interval_tracked c init random addrs s :
  reachable (initial c init random addrs) s -> timers_wf s /\ interval_tracked s.
Proof.
  intros Hr. induction Hr as [|s ev Hr IH].
  - split; [apply initial_timers_wf | reflexivity].
  - now apply host_interval_tracked.
Qed.

(** X15.  The instance never has more than one interval running, and
    [intervalId] always names it: in every state the instance can reach,
    the pending [setInterval] timers are exactly the one with the handle in
    [intervalId] and the delay [interval] when [intervalId] is set, and
    there is none when it is unset.  So [isStarted()] holds exactly when
    the periodic broadcast is scheduled. *)
Theorem intervalId_names_the_only_interval_timer :
  forall c init random addrs (s : State),
    reachable (initial c init random addrs) s ->
    pendingIntervals (snd s) =
      match intervalId (fst s) with
      | Some i => [{| timer_id := i; timer_kind := SetInterval;
                      timer_delay := interval (constructor c init) |}]
      | None => []
      end /\
    List.length (pendingIntervals (snd s)) <= 1 /\
    (isStarted s = (Return true, s) <-> pendingIntervals (snd s) <> []).
Proof.
  intros c init random addrs s Hr.
  destruct (reachable_interval_tracked Hr) as [_ H]. unfold interval_tracked in H.
  assert (Ei : interval (fst s) = interval (constructor c init)).
  { clear H. induction Hr as [|s ev Hr IH]; [reflexivity|].
    now rewrite host_keeps_interval. }
  rewrite Ei in H. rewrite H. destruct s as [e w]; cbn [fst snd] in *.
  unfold isStarted, bind, this, ret; cbn.
  destruct (intervalId e); cbn; repeat split; try lia; try discriminate; try congruence.
Qed.

(** X16.  Every tick of the interval publishes the addresses of that
    moment.  In a state the instance can reach with [intervalId] set, a
    public key and a transport: when the address manager's addresses change
    and the interval timer is due next, the transport receives one
    [publish] per topic with the encoding of the public key and the new
    addresses, and the interval timer stays pending. *)
Theorem interval_tick_publishes_current_addresses :
  forall c init random addrs (s : State) (i : TimerId) (k : bytes)
         (l : list Multiaddr),
    reachable (initial c init random addrs) s ->
    intervalId (fst s) = Some i ->
    PeerId_publicKey (peerId (components (fst s))) = Some k ->
    pubsub (components (fst s)) <> None ->
    let s' := run [AddressesChange l; TimerFires i] s in
    fst s' = fst s /\
    timers (snd s') = timers (snd s) /\
    calls (snd s') =
      calls (snd s) ++
      map (fun t => Publish t (encode {| PBPeer.publicKey := k;
                                          PBPeer.addrs := map Multiaddr_bytes l |}))
          (topics (fst s)).
Proof.
  intros c init random addrs s i k l Hr Hi Hk Hp s'.
  destruct (reachable_interval_tracked Hr) as [(Hd & _) H].
  unfold interval_tracked, pendingIntervals in H. rewrite Hi in H.
  set (ti := {| timer_id := i; timer_kind := SetInterval;
                timer_delay := interval (fst s) |}) in *.
  assert (Hin : In ti (timers (snd s))).
  { assert (Hin : In ti (filter is_interval (timers (snd s)))) by (rewrite H; now left).
    now apply filter_In in Hin. }
  destruct s as [e w]; cbn [fst snd] in *.
  unfold s', run; cbn [fold_left host]. cbn [update_world fst snd].
  rewrite fireTimer_eq. cbn [fst snd].
  change (timers (set_addresses l w)) with (timers w).
  pose proof (@find_timer (timers w) ti Hd Hin) as Ef. cbn [timer_id ti] in Ef.
  rewrite Ef. cbn [is_timeout ti timer_kind].
  rewrite _broadcast_with_key with (k := k) by assumption.
  now cbn.
Qed.

(** ** Messages around a stop *)

Lemma beforeStop_keeps_promises e w :
  exists w', snd (beforeStop (e, w)) = (e, w') /\
             promises w' = promises w /\ dispatched w' = dispatched w /\
             logged w' = logged w.
Proof.
  destruct (pubsub (components e)) as [u|] eqn:Hp.
  - exists (unsubscribed (topics e) w).
    rewrite beforeStop_with_pubsub by (rewrite Hp; discriminate). now repeat split.
  - exists w. rewrite beforeStop_without_pubsub by assumption. now repeat split.
Qed.

(** X17.  A stop comes too late for a message that [_onMessage] has
    accepted and too early for one that arrives after it.  On a started
    instance, take a message on a configured topic with an announcement of
    another peer.  When it is delivered before [beforeStop] and [stop] and
    its promise settles after them, the ['peer'] event is dispatched
    although the instance is stopped; when it is delivered after them,
    nothing is dispatched. *)
Theorem stop_does_not_cancel_a_pending_resolution :
  forall (e : PubSubPeerDiscovery) (w : World) (m : Message) (i : TimerId)
         (peer : PBPeer.Peer) (pid : PeerId) (mas : list Multiaddr),
    intervalId e = Some i ->
    messageListener w = true ->
    promises w = [] ->
    includes (topics e) (topic m) = true ->
    decode (data m) = Some peer ->
    peerIdFromKeys (PBPeer.publicKey peer) = Some pid ->
    PeerId_equals pid (peerId (components e)) = false ->
    multiaddrs_of (PBPeer.addrs peer) = Some mas ->
    let late := run [MessageEvent m; CallBeforeStop; CallStop; PromiseSettles] (e, w) in
    let early := run [CallBeforeStop; CallStop; MessageEvent m; PromiseSettles] (e, w) in
    intervalId (fst late) = None /\
    dispatched (snd late) =
      dispatched w ++ [{| id := pid; multiaddrs := mas; protocols := [] |}] /\
    intervalId (fst early) = None /\
    dispatched (snd early) = dispatched w.
Proof.
  intros e w m i peer pid mas Hi Hl Hp Ht Hd Hk Hs Ha late early.
  split; [|split; [|split]].
  - unfold late, run; cbn [fold_left host].
    rewrite deliverMessage_eq, Hl.
    rewrite _onMessage_decoded with (i := i) (peer := peer) by assumption. cbn [snd].
    match goal with |- context [beforeStop (e, ?w1)] =>
      destruct (beforeStop_keeps_promises e w1) as (wb & Eb & _) end.
    rewrite Eb. rewrite stop_started with (i := i) by assumption. cbn [snd].
    pose proof (@settleNext_frames_timers
                  (set_intervalId None e, set_timers (without_timer i) wb)) as F.
    unfold timer_state in F. now injection F.
  - unfold late, run; cbn [fold_left host].
    rewrite deliverMessage_eq, Hl.
    rewrite _onMessage_decoded with (i := i) (peer := peer) by assumption. cbn [snd].
    match goal with |- context [beforeStop (e, ?w1)] =>
      destruct (beforeStop_keeps_promises e w1) as (wb & Eb & Epb & Edb & _) end.
    rewrite Eb. rewrite stop_started with (i := i) by assumption. cbn [snd].
    rewrite settleNext_cons
      with (p := {| pending_peer := peer; pending_topic := topic m |}) (ps := [])
      by (cbn; rewrite Epb; cbn; now rewrite Hp).
    rewrite settle_other_peer with (pid := pid) (mas := mas) by assumption.
    cbn. now rewrite Edb.
  - unfold early, run; cbn [fold_left host].
    destruct (beforeStop_keeps_promises e w) as (wb & Eb & _).
    rewrite Eb. rewrite stop_started with (i := i) by assumption. cbn [snd].
    rewrite deliverMessage_eq, _onMessage_not_started by reflexivity.
    pose proof (@settleNext_frames_timers
                  (set_intervalId None e, set_timers (without_timer i) wb)) as F.
    unfold timer_state in F. injection F as F1 _ _.
    destruct (messageListener (set_timers (without_timer i) wb)); cbn [snd];
      now rewrite F1.
  - unfold early, run; cbn [fold_left host].
    destruct (beforeStop_keeps_promises e w) as (wb & Eb & Epb & Edb & _).
    rewrite Eb. rewrite stop_started with (i := i) by assumption. cbn [snd].
    rewrite deliverMessage_eq, _onMessage_not_started by reflexivity.
    destruct (messageListener (set_timers (without_timer i) wb)); cbn [snd];
      rewrite settleNext_nil by (cbn; now rewrite Epb); cbn; exact Edb.
Qed.

(** ** The topics of the transport calls *)

Lemma on_configured_topics_more e e' w w' extra :
  on_configured_topics (e, w) ->
  topics e' = topics e ->
  calls w' = calls w ++ extra ->
  (forall c t, In c extra -> call_topic c = Some t -> In t (topics e)) ->
  on_configured_topics (e', w').
Proof.
  unfold on_configured_topics; cbn [fst snd]. intros H Et Ec Hx c t Hin Hc.
  rewrite Et. rewrite Ec in Hin. apply in_app_iff in Hin as [Hin|Hin]; eauto.
Qed.

Lemma on_configured_topics_frame s s' :
  (topics (fst s'), calls (snd s')) = (topics (fst s), calls (snd s)) ->
  on_configured_topics s -> on_configured_topics s'.
Proof.
  unfold on_configured_topics. intros E. injection E as E1 E2. now rewrite E1, E2.
Qed.

Lemma subscribe_calls_on ts c t :
  In c (flat_map (fun t => [Subscribe t; AddMessageListener]) ts) ->
  call_topic c = Some t -> In t ts.
Proof.
  intros Hin Hc. apply in_flat_map in Hin as [t0 [Ht0 [<-|[<-|[]]]]]; cbn in Hc.
  - now injection Hc as <-.
  - discriminate.
Qed.

Lemma unsubscribe_calls_on ts c t :
  In c (flat_map (fun t => [Unsubscribe t; RemoveMessageListener]) ts) ->
  call_topic c = Some t -> In t ts.
Proof.
  intros Hin Hc. apply in_flat_map in Hin as [t0 [Ht0 [<-|[<-|[]]]]]; cbn in Hc.
  - now injection Hc as <-.
  - discriminate.
Qed.

Lemma publish_calls_on ts payload c t :
  In c (map (fun t => Publish t payload) ts) -> call_topic c = Some t -> In t ts.
Proof.
  intros Hin Hc. apply in_map_iff in Hin as [t0 [<- Ht0]]; cbn in Hc.
  now injection Hc as <-.
Qed.

Lemma before_broadcast_on_configured_topics e w :
  on_configured_topics (e, w) -> on_configured_topics (e, before_broadcast e w).
Proof.
  intros H. unfold before_broadcast. destruct (broadcastOnSubscribe e).
  - eapply on_configured_topics_more with
      (extra := flat_map (fun t => [Subscribe t; AddMessageListener]) (topics e)
                ++ [AddSubscriptionChangeListener]);
      [exact H | reflexivity | cbn; now rewrite app_assoc |].
    intros c t Hin Hc. apply in_app_iff in Hin as [Hin|[<-|[]]].
    + now apply subscribe_calls_on with (c := c).
    + discriminate.
  - eapply on_configured_topics_more; [exact H | reflexivity | reflexivity |].
    intros c t. apply subscribe_calls_on.
Qed.

Lemma _broadcast_on_configured_topics e w :
  on_configured_topics (e, w) -> on_configured_topics (snd (_broadcast (e, w))).
Proof.
  intros H. destruct (PeerId_publicKey (peerId (components e))) as [k|] eqn:Hk.
  - destruct (pubsub (components e)) as [u|] eqn:Hp.
    + rewrite _broadcast_with_key with (k := k) by (try rewrite Hp; easy). cbn [snd].
      eapply on_configured_topics_more; [exact H | reflexivity | reflexivity |].
      intros c t. apply publish_calls_on.
    + now rewrite _broadcast_without_pubsub with (k := k).
  - now rewrite _broadcast_without_key.
Qed.

Lemma afterStart_on_configured_topics s :
  on_configured_topics s -> on_configured_topics (snd (afterStart s)).
Proof.
  destruct s as [e w]. intros H.
  destruct (intervalId e) as [i|] eqn:Hi.
  { now rewrite afterStart_started with (i := i). }
  destruct (pubsub (components e)) as [u|] eqn:Hp.
  2:{ now rewrite afterStart_without_pubsub. }
  assert (Hp' : pubsub (components e) <> None) by (rewrite Hp; discriminate).
  destruct (listenOnly e) eqn:Hl.
  { rewrite afterStart_listenOnly by assumption. cbn [snd].
    eapply on_configured_topics_more; [exact H | reflexivity | reflexivity |].
    intros c t. apply subscribe_calls_on. }
  apply before_broadcast_on_configured_topics in H.
  destruct (PeerId_publicKey (peerId (components e))) as [k|] eqn:Hk.
  - pose proof (@afterStart_broadcasting e w k Hi Hp' Hl Hk) as E. cbv zeta in E.
    rewrite E. cbn [snd].
    eapply on_configured_topics_more; [exact H | reflexivity | reflexivity |].
    intros c t. apply publish_calls_on.
  - now rewrite afterStart_without_key.
Qed.

Lemma host_on_configured_topics ev s :
  on_configured_topics s -> on_configured_topics (snd (host ev s)).
Proof.
  intros H. destruct ev; cbn [host].
  - now apply afterStart_on_configured_topics.
  - destruct s as [e w]. destruct (pubsub (components e)) as [u|] eqn:Hp.
    + rewrite beforeStop_with_pubsub by (rewrite Hp; discriminate). cbn [snd].
      eapply on_configured_topics_more; [exact H | reflexivity | reflexivity |].
      intros c t. apply unsubscribe_calls_on.
    + now rewrite beforeStop_without_pubsub.
  - revert H. apply on_configured_topics_frame.
    apply (@frame_bind _ (fun s => (topics (fst s), calls (snd s)))).
    + apply frame_this.
    + intros e. destruct (intervalId e); [|apply frame_ret].
      apply frame_bind; [apply frame_update_world; reflexivity|].
      intros _. apply frame_update_this. reflexivity.
  - revert H. apply on_configured_topics_frame.
    revert s. change (Frame (fun s => (topics (fst s), calls (snd s))) (deliverMessage message)).
    unfold deliverMessage, _onMessage, isStarted. frame.
  - revert H. apply on_configured_topics_frame.
    revert s. change (Frame (fun s => (topics (fst s), calls (snd s)))
                        (deliverSubscriptionChange subscriptions)).
    unfold deliverSubscriptionChange. apply frame_bind; [apply frame_world|]. intros w.
    apply frame_times. unfold onSubscriptionChange, Math_random, setTimeout, newTimer. frame.
  - revert H. apply on_configured_topics_frame.
    revert s. change (Frame (fun s => (topics (fst s), calls (snd s))) settleNext).
    unfold settleNext, settle, log, dispatchEvent. frame.
  - rewrite fireTimer_eq. destruct (find _ (timers (snd s))) as [t|]; [|exact H].
    destruct s as [e w]. cbn [fst snd] in *. apply _broadcast_on_configured_topics.
    destruct (is_timeout t); [|exact H]. revert H. now apply on_configured_topics_frame.
  - revert H. apply on_configured_topics_frame. now destruct s.
Qed.

(** X18.  The instance calls the transport on its configured topics only:
    in every state it can reach, every [subscribe], [unsubscribe] and
    [publish] the transport has received names a topic of the topic list
    the instance was constructed with. *)
Theorem transport_calls_name_configured_topics_only :
  forall c init random addrs (s : State),
    reachable (initial c init random addrs) s ->
    forall call t,
      In call (calls (snd s)) -> call_topic call = Some t ->
      In t (topics (constructor c init)).
Proof.
  intros c init random addrs s Hr.
  assert (H : on_configured_topics s /\ topics (fst s) = topics (constructor c init)).
  { induction Hr as [|s ev Hr [IH1 IH2]].
    - split; [|reflexivity]. intros call t [].
    - split; [now apply host_on_configured_topics|].
      change (topics (readonly_fields (fst (snd (host ev s)))) = topics (constructor c init)).
      now rewrite host_frames_readonly. }
  destruct H as [H Et]. intros call t Hin Hc. rewrite <- Et. now apply (H call t).
Qed.

(** ** From a subscription change to the broadcast *)

(** X19.  A subscription change leads to one more broadcast.  In a state
    the instance can reach with one listener of ['subscription-change']
    installed, a public key and a transport: after a subscription change on
    a configured topic, when the timer it set is due, the transport
    receives one [publish] per topic with the announcement of that moment,
    whether the instance is started or not, and the timer is gone: the
    pending timers are as before the change. *)
Theorem subscription_change_leads_to_one_broadcast :
  forall c init random addrs (s : State) (subs : list Subscription.t) (k : bytes),
    reachable (initial c init random addrs) s ->
    subscriptionChangeListeners (snd s) = 1 ->
    existsb (fun sub => includes (topics (fst s)) (Subscription.topic sub)) subs = true ->
    PeerId_publicKey (peerId (components (fst s))) = Some k ->
    pubsub (components (fst s)) <> None ->
    let s' := run [SubscriptionChangeEvent subs; TimerFires (nextTimerId (snd s))] s in
    fst s' = fst s /\
    timers (snd s') = timers (snd s) /\
    calls (snd s') =
      calls (snd s) ++
      map (fun t => Publish t (announcement k (snd s))) (topics (fst s)).
Proof.
  intros c init random addrs s subs k Hr Hn Hs Hk Hp s'.
  pose proof (reachable_timers_wf (initial_timers_wf c init random addrs) Hr) as Hwf.
  pose proof (host_timers_wf (SubscriptionChangeEvent subs) Hwf) as Hwf1.
  destruct s as [e w]; cbn [fst snd] in *.
  unfold s', run; cbn [fold_left host].
  cbn [host] in Hwf1.
  rewrite deliverSubscriptionChange_one_listener in * by assumption.
  rewrite bind_return with (a := tt)
    (s' := (e, with_timer SetTimeout
                 (backoffOnSubscribe e * randomSource w (randomDrawn w))%Q
                 (set_randomDrawn (S (randomDrawn w)) w))) in *
    by now apply onSubscriptionChange_discovery_topic.
  cbn [ret snd] in *.
  set (tn := {| timer_id := nextTimerId w; timer_kind := SetTimeout;
                timer_delay := (backoffOnSubscribe e * randomSource w (randomDrawn w))%Q |}).
  rewrite fireTimer_eq. cbn [fst snd].
  destruct Hwf1 as (Hd1 & _). cbn [snd] in Hd1.
  assert (Hin : In tn (timers (with_timer SetTimeout
                                 (backoffOnSubscribe e * randomSource w (randomDrawn w))%Q
                                 (set_randomDrawn (S (randomDrawn w)) w)))).
  { cbn. apply in_or_app. right. now left. }
  pose proof (@find_timer _ tn Hd1 Hin) as Ef. cbn [timer_id tn] in Ef.
  rewrite Ef. cbn [is_timeout tn timer_kind].
  rewrite _broadcast_with_key with (k := k) by assumption.
  cbn [fst snd]. repeat split.
  cbn. unfold without_timer. rewrite filter_app.
  fold (without_timer (nextTimerId w) (timers w)).
  rewrite without_timer_fresh by (destruct Hwf as (_ & Hlt & _); exact Hlt).
  cbn. rewrite Nat.eqb_refl. cbn. now rewrite app_nil_r.
Qed.

End EngineFacts.

(** * The sample codec *)

Lemma to_N_byte_of_N n : (n < 256)%N -> Byte.to_N (Sample.byte_of_N n) = n.
Proof.
  intros H. unfold Sample.byte_of_N.
  destruct (Byte.of_N n) as [b|] eqn:E.
  - now apply Byte.to_of_N.
  - apply Byte.of_N_None_iff in E. lia.
Qed.

Lemma varint_fuel_S fuel n :
  Sample.varint_fuel (S fuel) n =
  if (n <? 128)%N then [Sample.byte_of_N n]
  else Sample.byte_of_N (128 + n mod 128) :: Sample.varint_fuel fuel (n / 128).
Proof. reflexivity. Qed.

Lemma read_varint_cons shift b rest :
  Sample.read_varint shift (b :: rest) =
  if (Byte.to_N b <? 128)%N then Some (Byte.to_N b * 2 ^ shift, rest)%N
  else match Sample.read_varint (shift + 7) rest with
       | Some (hi, rest') => Some ((Byte.to_N b - 128) * 2 ^ shift + hi, rest')%N
       | None => None
       end.
Proof. reflexivity. Qed.

Lemma read_varint_varint_fuel fuel : forall n shift rest,
  (n < 2 ^ N.of_nat (S fuel))%N ->
  Sample.read_varint shift (Sample.varint_fuel (S fuel) n ++ rest)
  = Some (n * 2 ^ shift, rest)%N.
Proof.
  induction fuel as [|fuel IH]; intros n shift rest Hn;
    rewrite varint_fuel_S; destruct (N.ltb_spec n 128) as [Hlt|Hge].
  - cbn [app]. rewrite read_varint_cons, to_N_byte_of_N by lia.
    destruct (N.ltb_spec n 128); [reflexivity | lia].
  - change (2 ^ N.of_nat 1)%N with 2%N in Hn. lia.
  - cbn [app]. rewrite read_varint_cons, to_N_byte_of_N by lia.
    destruct (N.ltb_spec n 128); [reflexivity | lia].
  - pose proof (N.mod_lt n 128 ltac:(lia)) as Hm.
    pose proof (N.div_mod n 128 ltac:(lia)) as Hdm.
    assert (Hq : (n / 128 < 2 ^ N.of_nat (S fuel))%N).
    { rewrite Nat2N.inj_succ, N.pow_succ_r' in Hn.
      apply N.Div0.div_lt_upper_bound.
      apply N.lt_le_trans with (1 := Hn).
      apply N.mul_le_mono_r. lia. }
    revert Hm Hdm Hq. generalize (n / 128)%N (n mod 128)%N. intros q r Hm Hdm Hq.
    rewrite <- app_comm_cons, read_varint_cons, to_N_byte_of_N by lia.
    destruct (N.ltb_spec (128 + r) 128) as [Hc|_]; [lia|].
    rewrite IH by exact Hq.
    f_equal. f_equal. rewrite N.pow_add_r. change (2 ^ 7)%N with 128%N.
    replace (128 + r - 128)%N with r by lia.
    rewrite Hdm. ring.
Qed.

Lemma read_varint_varint n rest :
  Sample.read_varint 0 (Sample.varint n ++ rest) = Some (n, rest).
Proof.
  unfold Sample.varint. rewrite read_varint_varint_fuel.
  - now rewrite N.mul_1_r.
  - rewrite Nat2N.inj_succ, N2Nat.id.
    destruct n as [|p]; [reflexivity|]. 
    destruct (N.log2_spec (N.pos p) ltac:(lia)) as [_ H]. 
    rewrite <- N.add_1_r. now rewrite N.add_1_r.
Qed.

Lemma varint_nonempty n : Sample.varint n <> [].
Proof.
  unfold Sample.varint. cbn [Sample.varint_fuel]. now destruct (n <? 128)%N.
Qed.

Lemma read_field_field b rest :
  Sample.read_field (Sample.field b ++ rest) = Some (b, rest).
Proof.
  unfold Sample.read_field, Sample.field. rewrite <- app_assoc, read_varint_varint.
  rewrite Nat2N.id. rewrite length_app.
  destruct (Nat.leb_spec (List.length b) (List.length b + List.length rest)); [|lia].
  rewrite firstn_app, Nat.sub_diag, firstn_all. cbn. rewrite app_nil_r.
  rewrite skipn_app, Nat.sub_diag, skipn_all. reflexivity.
Qed.

Lemma read_fields_fields l : forall fuel,
  List.length (flat_map Sample.field l) <= fuel ->
  Sample.read_fields fuel (flat_map Sample.field l) = Some l.
Proof.
  induction l as [|b l IH]; intros fuel Hf; cbn [flat_map].
  - now destruct fuel.
  - cbn [flat_map] in Hf. rewrite length_app in Hf.
    assert (Hne : Sample.field b <> []).
    { unfold Sample.field. pose proof (@varint_nonempty (N.of_nat (List.length b))).
      destruct (Sample.varint (N.of_nat (List.length b))); [contradiction | discriminate]. }
    destruct (Sample.field b ++ flat_map Sample.field l) as [|x xs] eqn:E.
    { apply app_eq_nil in E as [E _]. contradiction. }
    destruct fuel as [|fuel].
    { destruct (Sample.field b); [contradiction | cbn in Hf; lia]. }
    cbn [Sample.read_fields]. rewrite <- E, read_field_field, IH; [reflexivity|].
    destruct (Sample.field b); [contradiction | cbn in Hf; lia].
Qed.

(** [decode] undoes [encode] on every announcement that has a public key. *)
Lemma sample_decode_encode p :
  PBPeer.publicKey p <> [] -> Sample.decode (Sample.encode p) = Some p.
Proof.
  intros Hk. unfold Sample.decode, Sample.encode.
  change (Sample.field (PBPeer.publicKey p) ++ flat_map Sample.field (PBPeer.addrs p))
    with (flat_map Sample.field (PBPeer.publicKey p :: PBPeer.addrs p)).
  rewrite read_fields_fields by reflexivity.
  destruct p as [pk ads]; cbn in *. now destruct pk.
Qed.

(** Without a public key there is nothing to decode. *)
Lemma sample_decode_without_key ads :
  Sample.decode (Sample.encode {| PBPeer.publicKey := []; PBPeer.addrs := ads |}) = None.
Proof.
  unfold Sample.decode, Sample.encode; cbn [PBPeer.publicKey PBPeer.addrs].
  change (Sample.field [] ++ flat_map Sample.field ads)
    with (flat_map Sample.field ([] :: ads)).
  now rewrite read_fields_fields by reflexivity.
Qed.

(** * The engine at concrete inputs *)

#[local] Existing Instance Sample.externals.

Lemma decode_failure_is_thrown_out_of_onMessage_witness :
  let s := run [CallAfterStart] (initial Sample.wired empty_init Sample.half []) in
  (intervalId (fst s) = Some 1 /\
   includes (topics (fst s)) (topic Sample.malformed) = true /\
   decode (data Sample.malformed) = None) /\
  _onMessage Sample.malformed s = (Throw DecodeError, s) /\
  host (MessageEvent Sample.malformed) s = (Throw DecodeError, s) /\
  logged (snd (snd (_onMessage Sample.malformed s))) = logged (snd s) /\
  dispatched
    (snd (run [MessageEvent Sample.malformed; MessageEvent Sample.messageX; PromiseSettles] s))
  = [{| id := Sample.nodeX; multiaddrs := [Sample.addr1; Sample.addr2]; protocols := [] |}].
Proof.
  cbv zeta. split; [repeat split|]. split; [|repeat split].
  refine (proj1 (@decode_failure_is_thrown_out_of_onMessage Sample.externals
      (fst (run [CallAfterStart] (initial Sample.wired empty_init Sample.half [])))
      (snd (run [CallAfterStart] (initial Sample.wired empty_init Sample.half [])))
      Sample.malformed 1 _ _ _)); reflexivity.
Defined.

Lemma listenOnly_never_discovers_witness :
  let s0 := initial Sample.wired Sample.listening Sample.half [] in
  let s := run [CallAfterStart] s0 in
  let s' := run [MessageEvent Sample.messageX; PromiseSettles] s in
  (init_listenOnly Sample.listening = Some true /\ reachable s0 s') /\
  calls (snd s) = [Subscribe TOPIC; AddMessageListener] /\
  messageListener (snd s) = true /\
  decode (data Sample.messageX) =
    Some {| PBPeer.publicKey := Sample.keyX; PBPeer.addrs := [Sample.addr1; Sample.addr2] |} /\
  peerIdFromKeys Sample.keyX = Some Sample.nodeX /\
  PeerId_equals Sample.nodeX (peerId (components (fst s))) = false /\
  s' = s /\
  dispatched (snd s') = [] /\
  dispatched
    (snd (run [CallAfterStart; MessageEvent Sample.messageX; PromiseSettles]
            (initial Sample.wired empty_init Sample.half [])))
  = [{| id := Sample.nodeX; multiaddrs := [Sample.addr1; Sample.addr2]; protocols := [] |}].
Proof.
  cbv zeta.
  assert (Hr : reachable (initial Sample.wired Sample.listening Sample.half [])
                 (run [MessageEvent Sample.messageX; PromiseSettles]
                    (run [CallAfterStart]
                       (initial Sample.wired Sample.listening Sample.half [])))).
  { do 2 apply reachable_run. constructor. }
  split; [split; [reflexivity | exact Hr]|].
  do 6 (split; [reflexivity|]). split; [|reflexivity].
  exact (proj2 (proj2 (proj2 (@listenOnly_never_discovers Sample.externals
           Sample.wired Sample.listening Sample.half [] _ eq_refl Hr)))).
Defined.

Lemma listenOnly_afterStart_twice_subscribes_twice_witness :
  let e := constructor Sample.wired Sample.listening in
  let w := fresh_world Sample.half [] in
  (intervalId e = None /\ pubsub (components e) <> None /\ listenOnly e = true) /\
  topics e = [TOPIC] /\
  subscribeCalls (snd (run [CallAfterStart] (e, w))) = [TOPIC] /\
  subscribeCalls (snd (run [CallAfterStart; CallAfterStart] (e, w))) = [TOPIC; TOPIC] /\
  calls (snd (run [CallAfterStart; CallAfterStart] (e, w))) =
    [Subscribe TOPIC; AddMessageListener; Subscribe TOPIC; AddMessageListener].
Proof.
  cbv zeta. split; [repeat split; discriminate|].
  split; [reflexivity|]. split; [reflexivity|]. split; [|reflexivity].
  refine (proj2 (proj2 (@listenOnly_afterStart_twice_subscribes_twice Sample.externals
      (constructor Sample.wired Sample.listening) (fresh_world Sample.half []) _ _ _)));
    try reflexivity; discriminate.
Defined.

(** On a new instance with a transport, [beforeStop] followed by [stop]
    makes two transport calls. *)
Lemma stop_when_never_started_calls_the_transport :
  let s0 := initial Sample.wired empty_init Sample.half [] in
  intervalId (fst s0) = None /\
  calls (snd s0) = [] /\
  calls (snd (run [CallBeforeStop; CallStop] s0)) =
    [Unsubscribe TOPIC; RemoveMessageListener] /\
  ~ calls (snd (run [CallBeforeStop; CallStop] s0)) = calls (snd s0).
Proof. cbv zeta. repeat split. discriminate. Qed.

Lemma beforeStop_stop_when_never_started_witness :
  let e := constructor Sample.wired empty_init in
  let w := fresh_world Sample.half [] in
  intervalId e = None /\
  pubsub (components e) <> None /\
  run [CallBeforeStop; CallStop] (e, w) = (e, unsubscribed [TOPIC] w) /\
  calls (unsubscribed [TOPIC] w) = [Unsubscribe TOPIC; RemoveMessageListener].
Proof.
  cbv zeta. split; [reflexivity|]. split; [discriminate|].
  split.
  - apply (@beforeStop_stop_when_never_started Sample.externals
             (constructor Sample.wired empty_init) (fresh_world Sample.half []));
      [reflexivity | discriminate].
  - reflexivity.
Defined.

Lemma onMessage_self_filter_witness :
  let s := run [CallAfterStart] (initial Sample.wired empty_init Sample.half [Sample.addr1]) in
  let peer := {| PBPeer.publicKey := Sample.keyY; PBPeer.addrs := [Sample.addr1] |} in
  decode (data Sample.messageY) = Some peer /\
  peerIdFromKeys (PBPeer.publicKey peer) = Some Sample.nodeY /\
  PeerId_equals Sample.nodeY (peerId (components (fst s))) = true /\
  run [MessageEvent Sample.messageY; PromiseSettles] s = s.
Proof.
  cbv zeta. repeat (split; [reflexivity|]).
  refine (proj2 (proj2 (@onMessage_self_filter Sample.externals
      (fst (run [CallAfterStart] (initial Sample.wired empty_init Sample.half [Sample.addr1])))
      (snd (run [CallAfterStart] (initial Sample.wired empty_init Sample.half [Sample.addr1])))
      Sample.messageY
      {| PBPeer.publicKey := Sample.keyY; PBPeer.addrs := [Sample.addr1] |}
      Sample.nodeY _ _ _)) _); reflexivity.
Defined.

Lemma onMessage_ignores_other_topics_witness :
  let s := run [CallAfterStart] (initial Sample.wired empty_init Sample.half []) in
  let m := {| topic := "some-other-topic"; data := Sample.announcementX |} in
  includes (topics (fst s)) (topic m) = false /\
  _onMessage m s = (Return tt, s).
Proof.
  cbv zeta. split; [reflexivity|].
  refine (proj1 (@onMessage_ignores_other_topics Sample.externals
      (fst (run [CallAfterStart] (initial Sample.wired empty_init Sample.half [])))
      (snd (run [CallAfterStart] (initial Sample.wired empty_init Sample.half [])))
      {| topic := "some-other-topic"; data := Sample.announcementX |} _)).
  reflexivity.
Defined.

Lemma broadcast_throws_iff_no_key_else_publishes_witness :
  let e := constructor Sample.wired empty_init in
  let w := fresh_world Sample.half [Sample.addr1; Sample.addr2] in
  let payload :=
    encode {| PBPeer.publicKey := Sample.keyY;
              PBPeer.addrs := [Sample.addr1; Sample.addr2] |} in
  pubsub (components e) <> None /\
  calls (snd (snd (_broadcast (e, w)))) = [Publish TOPIC payload].
Proof.
  cbv zeta. split; [discriminate|].
  refine (proj2 (proj2 (@broadcast_throws_iff_no_key_else_publishes Sample.externals
      (constructor Sample.wired empty_init)
      (fresh_world Sample.half [Sample.addr1; Sample.addr2]) _) Sample.keyY _)).
  - discriminate.
  - reflexivity.
Defined.


(** On doubles the delay is not always less than a positive
    [backoffOnSubscribe]: for the least positive double and the draw 0.75
    the product is rounded up to [backoffOnSubscribe] itself, and for
    [Infinity] every positive draw gives [Infinity]. *)
Lemma double_product_reaches_the_backoff :
  let least := 0x1p-1074%float in
  PrimFloat.ltb 0%float least = true /\
  PrimFloat.leb 0%float 0.75%float = true /\
  PrimFloat.ltb 0.75%float 1%float = true /\
  double_product least 0.75%float = least /\
  PrimFloat.ltb (double_product least 0.75%float) least = false /\
  PrimFloat.ltb (double_product PrimFloat.infinity 0.5%float) PrimFloat.infinity = false.
Proof. cbv zeta. repeat split. Qed.


Lemma stop_cancels_only_the_interval_timer_witness :
  let s0 := initial Sample.wired (Sample.eager None) Sample.half [] in
  let s := run [CallAfterStart; SubscriptionChangeEvent Sample.peerSubscribes] s0 in
  let s' := run [CallBeforeStop; CallStop] s in
  reachable s0 s /\
  timers (snd s) =
    [{| timer_id := 1; timer_kind := SetInterval; timer_delay := 10000 |};
     {| timer_id := 2; timer_kind := SetTimeout; timer_delay := (10000 * (1 # 10) * (1 # 2))%Q |}] /\
  pendingTimeouts (snd s') = pendingTimeouts (snd s) /\
  timers (snd s') =
    [{| timer_id := 2; timer_kind := SetTimeout; timer_delay := (10000 * (1 # 10) * (1 # 2))%Q |}].
Proof.
  cbv zeta.
  assert (Hr : reachable (initial Sample.wired (Sample.eager None) Sample.half [])
                 (run [CallAfterStart; SubscriptionChangeEvent Sample.peerSubscribes]
                    (initial Sample.wired (Sample.eager None) Sample.half []))).
  { apply reachable_run. constructor. }
  split; [exact Hr|]. split; [reflexivity|]. split; [|reflexivity].
  exact (proj1 (proj2 (proj2 (@stop_cancels_only_the_interval_timer Sample.externals
           Sample.wired (Sample.eager None) Sample.half [] _ Hr)))).
Defined.

(** * More runs at concrete inputs *)

Lemma readonly_fields_never_change_witness :
  let s0 := initial Sample.wired (Sample.eager None) Sample.half [] in
  let s := run [CallAfterStart; SubscriptionChangeEvent Sample.peerSubscribes;
                CallBeforeStop; CallStop] s0 in
  reachable s0 s /\ topics (fst s) = [TOPIC].
Proof.
  cbv zeta.
  assert (Hr : reachable (initial Sample.wired (Sample.eager None) Sample.half [])
                 (run [CallAfterStart; SubscriptionChangeEvent Sample.peerSubscribes;
                       CallBeforeStop; CallStop]
                    (initial Sample.wired (Sample.eager None) Sample.half [])))
    by (apply reachable_run; constructor).
  split; [exact Hr|].
  exact (proj1 (proj2 (@readonly_fields_never_change Sample.externals
                         Sample.wired (Sample.eager None) Sample.half [] _ Hr))).
Defined.

Lemma without_pubsub_nothing_happens_witness :
  let s0 := initial Sample.unwired empty_init Sample.half [] in
  let s := run [CallAfterStart; MessageEvent Sample.messageX; CallBeforeStop] s0 in
  (pubsub Sample.unwired = None /\ reachable s0 s) /\
  afterStart s = (Throw (Error "PubSub not configured"), s) /\
  calls (snd s) = [].
Proof.
  cbv zeta.
  assert (Hr : reachable (initial Sample.unwired empty_init Sample.half [])
                 (run [CallAfterStart; MessageEvent Sample.messageX; CallBeforeStop]
                    (initial Sample.unwired empty_init Sample.half [])))
    by (apply reachable_run; constructor).
  split; [split; [reflexivity | exact Hr]|].
  destruct (@without_pubsub_nothing_happens Sample.externals
              Sample.unwired empty_init Sample.half [] _ eq_refl Hr)
    as (H1 & _ & _ & H4 & _).
  split; [exact H1 | exact H4].
Defined.

Lemma afterStart_without_public_key_witness :
  let e := constructor Sample.wired_without_key empty_init in
  let w := fresh_world Sample.half [] in
  (intervalId e = None /\ pubsub (components e) <> None /\ listenOnly e = false /\
   PeerId_publicKey (peerId (components e)) = None) /\
  fst (afterStart (e, w)) = Throw (Error "PeerId was missing public key") /\
  subscribeCalls (snd (snd (afterStart (e, w)))) = [TOPIC].
Proof.
  cbv zeta. split; [repeat split; discriminate|].
  destruct (@afterStart_without_public_key Sample.externals
              (constructor Sample.wired_without_key empty_init)
              (fresh_world Sample.half []) eq_refl
              ltac:(discriminate) eq_refl eq_refl)
    as (H1 & _ & H3 & _).
  split; [exact H1 | exact H3].
Defined.

Lemma afterStart_subscribes_broadcasts_and_sets_the_interval_witness :
  let e := constructor Sample.wired (Sample.eager None) in
  let w := @fresh_world Sample.externals Sample.half [Sample.addr1] in
  (intervalId e = None /\ pubsub (components e) <> None /\ listenOnly e = false /\
   PeerId_publicKey (peerId (components e)) = Some Sample.keyY) /\
  calls (snd (snd (afterStart (e, w)))) =
    [Subscribe TOPIC; AddMessageListener; AddSubscriptionChangeListener;
     Publish TOPIC (encode {| PBPeer.publicKey := Sample.keyY;
                              PBPeer.addrs := [Sample.addr1] |})] /\
  timers (snd (snd (afterStart (e, w)))) =
    [{| timer_id := 1; timer_kind := SetInterval; timer_delay := 10000 |}].
Proof.
  cbv zeta. split; [repeat split; discriminate|].
  destruct (@afterStart_subscribes_broadcasts_and_sets_the_interval Sample.externals
              (constructor Sample.wired (Sample.eager None))
              (@fresh_world Sample.externals Sample.half [Sample.addr1]) Sample.keyY eq_refl
              ltac:(discriminate) eq_refl eq_refl)
    as (_ & _ & _ & H4 & H5 & _).
  split; [exact H4 | exact H5].
Defined.

Lemma afterStart_is_idempotent_once_started_witness :
  let e := constructor Sample.wired empty_init in
  let w := fresh_world Sample.half [] in
  (intervalId e = None /\ pubsub (components e) <> None /\ listenOnly e = false /\
   PeerId_publicKey (peerId (components e)) = Some Sample.keyY) /\
  run [CallAfterStart; CallAfterStart; CallAfterStart] (e, w) = run [CallAfterStart] (e, w).
Proof.
  cbv zeta. split; [repeat split; discriminate|].
  exact (@afterStart_is_idempotent_once_started Sample.externals 2
           (constructor Sample.wired empty_init) (fresh_world Sample.half [])
           Sample.keyY eq_refl ltac:(discriminate) eq_refl eq_refl).
Defined.

Lemma start_then_stop_restores_the_instance_witness :
  let e := constructor Sample.wired (Sample.eager None) in
  let w := fresh_world Sample.half [] in
  let s := run [CallAfterStart; CallBeforeStop; CallStop] (e, w) in
  (intervalId e = None /\ pubsub (components e) <> None /\ listenOnly e = false /\
   PeerId_publicKey (peerId (components e)) = Some Sample.keyY /\
   (forall t, In t (timers w) -> timer_id t < nextTimerId w)) /\
  fst s = e /\ timers (snd s) = [] /\ subscriptionChangeListeners (snd s) = 1.
Proof.
  cbv zeta.
  assert (Hlt : forall t, In t (timers (fresh_world Sample.half [])) ->
                          timer_id t < nextTimerId (fresh_world Sample.half []))
    by (intros t []).
  split; [repeat split; try discriminate; exact Hlt|].
  destruct (@start_then_stop_restores_the_instance Sample.externals
              (constructor Sample.wired (Sample.eager None))
              (fresh_world Sample.half []) Sample.keyY eq_refl
              ltac:(discriminate) eq_refl eq_refl Hlt)
    as (H1 & H2 & _ & H4 & _).
  split; [exact H1|]. split; [exact H2 | exact H4].
Defined.

Lemma listenOnly_never_publishes_witness :
  let s0 := initial Sample.wired Sample.listening_eager Sample.half [] in
  let s := run [CallAfterStart; SubscriptionChangeEvent Sample.peerSubscribes;
                TimerFires 1; MessageEvent Sample.messageX] s0 in
  (init_listenOnly Sample.listening_eager = Some true /\ reachable s0 s) /\
  publishCalls (snd s) = [] /\ timers (snd s) = [].
Proof.
  cbv zeta.
  assert (Hr : reachable (initial Sample.wired Sample.listening_eager Sample.half [])
                 (run [CallAfterStart; SubscriptionChangeEvent Sample.peerSubscribes;
                       TimerFires 1; MessageEvent Sample.messageX]
                    (initial Sample.wired Sample.listening_eager Sample.half [])))
    by (apply reachable_run; constructor).
  split; [split; [reflexivity | exact Hr]|].
  destruct (@listenOnly_never_publishes Sample.externals
              Sample.wired Sample.listening_eager Sample.half [] _ eq_refl Hr)
    as (H1 & H2 & _).
  split; [exact H1 | exact H2].
Defined.

Lemma one_invalid_address_drops_the_announcement_witness :
  let e := constructor Sample.wired empty_init in
  let w := fresh_world Sample.half [] in
  let p := {| pending_peer := Sample.announcedX_bad_address; pending_topic := TOPIC |} in
  (peerIdFromKeys (PBPeer.publicKey (pending_peer p)) = Some Sample.nodeX /\
   PeerId_equals Sample.nodeX (peerId (components e)) = false /\
   In [] (PBPeer.addrs (pending_peer p)) /\
   multiaddr [] = None) /\
  dispatched (snd (snd (settle p (e, w)))) = [] /\
  logged (snd (snd (settle p (e, w)))) =
    [LogDiscovered Sample.nodeX TOPIC; LogError InvalidMultiaddr].
Proof.
  cbv zeta.
  assert (Hin : In [] (PBPeer.addrs Sample.announcedX_bad_address))
    by (right; left; reflexivity).
  split; [repeat split; exact Hin|].
  destruct (@one_invalid_address_drops_the_announcement Sample.externals
              {| pending_peer := Sample.announcedX_bad_address; pending_topic := TOPIC |}
              (constructor Sample.wired empty_init) (fresh_world Sample.half [])
              Sample.nodeX [] eq_refl eq_refl Hin eq_refl)
    as (_ & H2 & H3).
  split; [exact H2 | exact H3].
Defined.

Lemma broadcast_of_one_node_is_discovered_by_another_witness :
  let ex := constructor Sample.wiredX empty_init in
  let wx := @fresh_world Sample.externals Sample.half [Sample.addr1; Sample.addr2] in
  let sy := run [CallAfterStart] (initial Sample.wired empty_init Sample.half []) in
  (PeerId_publicKey (peerId (components ex)) = Some Sample.keyX /\
   pubsub (components ex) <> None /\
   In TOPIC (topics ex) /\
   intervalId (fst sy) = Some 1 /\
   messageListener (snd sy) = true /\
   promises (snd sy) = [] /\
   In TOPIC (topics (fst sy)) /\
   decode (announcement Sample.keyX wx) =
     Some {| PBPeer.publicKey := Sample.keyX;
             PBPeer.addrs := map Multiaddr_bytes (addresses wx) |} /\
   peerIdFromKeys Sample.keyX = Some Sample.nodeX /\
   PeerId_equals Sample.nodeX (peerId (components (fst sy))) = false /\
   multiaddrs_of (map Multiaddr_bytes (addresses wx)) = Some (addresses wx)) /\
  dispatched
    (snd (run [MessageEvent {| topic := TOPIC; data := announcement Sample.keyX wx |};
               PromiseSettles] sy))
  = [{| id := Sample.nodeX; multiaddrs := [Sample.addr1; Sample.addr2]; protocols := [] |}].
Proof.
  cbv zeta.
  assert (Hin : In TOPIC [TOPIC]) by (left; reflexivity).
  split; [repeat split; try discriminate; exact Hin|].
  exact (proj2 (@broadcast_of_one_node_is_discovered_by_another Sample.externals
                  (constructor Sample.wiredX empty_init)
                  (fst (run [CallAfterStart] (initial Sample.wired empty_init Sample.half [])))
                  (@fresh_world Sample.externals Sample.half [Sample.addr1; Sample.addr2])
                  (snd (run [CallAfterStart] (initial Sample.wired empty_init Sample.half [])))
                  Sample.keyX Sample.nodeX TOPIC 1
                  eq_refl ltac:(discriminate) Hin eq_refl eq_refl eq_refl Hin
                  eq_refl eq_refl eq_refl eq_refl)).
Defined.

Lemma onSubscriptionChange_looks_at_topics_only_witness :
  let s := run [CallAfterStart] (initial Sample.wired (Sample.eager None) Sample.half []) in
  map Subscription.topic Sample.peerUnsubscribes = map Subscription.topic Sample.peerSubscribes /\
  onSubscriptionChange Sample.peerUnsubscribes s = onSubscriptionChange Sample.peerSubscribes s /\
  timers (snd (snd (onSubscriptionChange Sample.peerUnsubscribes s))) =
    [{| timer_id := 1; timer_kind := SetInterval; timer_delay := 10000 |};
     {| timer_id := 2; timer_kind := SetTimeout;
        timer_delay := (10000 * (1 # 10) * (1 # 2))%Q |}].
Proof.
  cbv zeta. split; [reflexivity|]. split; [|reflexivity].
  exact (proj1 (@onSubscriptionChange_looks_at_topics_only Sample.externals
                  Sample.peerUnsubscribes Sample.peerSubscribes
                  (fst (run [CallAfterStart]
                          (initial Sample.wired (Sample.eager None) Sample.half [])))
                  (snd (run [CallAfterStart]
                          (initial Sample.wired (Sample.eager None) Sample.half [])))
                  eq_refl)).
Defined.

Lemma subscription_change_sets_one_timer_per_listener_witness :
  let s := run [CallAfterStart; CallBeforeStop; CallStop; CallAfterStart]
             (initial Sample.wired (Sample.eager None) Sample.half []) in
  existsb (fun sub => includes (topics (fst s)) (Subscription.topic sub))
    Sample.peerSubscribes = true /\
  subscriptionChangeListeners (snd s) = 2 /\
  List.length (pendingTimeouts (snd (snd (deliverSubscriptionChange Sample.peerSubscribes s))))
  = 2.
Proof.
  cbv zeta. split; [reflexivity|]. split; [reflexivity|].
  exact (proj1 (proj2 (proj2 (@subscription_change_sets_one_timer_per_listener
     Sample.externals Sample.peerSubscribes
     (fst (run [CallAfterStart; CallBeforeStop; CallStop; CallAfterStart]
             (initial Sample.wired (Sample.eager None) Sample.half [])))
     (snd (run [CallAfterStart; CallBeforeStop; CallStop; CallAfterStart]
             (initial Sample.wired (Sample.eager None) Sample.half [])))
     eq_refl)))).
Defined.

Lemma subscription_change_listeners_pile_up_witness :
  let e := constructor Sample.wired (Sample.eager None) in
  let w := fresh_world Sample.half [] in
  let stopped := run [CallAfterStart; CallBeforeStop; CallStop] (e, w) in
  let restarted := run [CallAfterStart] stopped in
  (intervalId e = None /\ pubsub (components e) <> None /\ listenOnly e = false /\
   broadcastOnSubscribe e = true /\
   PeerId_publicKey (peerId (components e)) = Some Sample.keyY /\
   subscriptionChangeListeners w = 0 /\
   existsb (fun sub => includes (topics e) (Subscription.topic sub))
     Sample.peerSubscribes = true) /\
  subscriptionChangeListeners (snd stopped) = 1 /\
  subscriptionChangeListeners (snd restarted) = 2 /\
  List.length (pendingTimeouts
                 (snd (run [SubscriptionChangeEvent Sample.peerSubscribes] restarted))) = 2.
Proof.
  cbv zeta. split; [repeat split; discriminate|].
  destruct (@subscription_change_listeners_pile_up Sample.externals
              Sample.peerSubscribes (constructor Sample.wired (Sample.eager None))
              (fresh_world Sample.half []) Sample.keyY eq_refl
              ltac:(discriminate) eq_refl eq_refl eq_refl eq_refl eq_refl)
    as ((_ & H1 & _) & H2 & H3).
  split; [exact H1|]. split; [exact H2 | exact H3].
Defined.

Lemma intervalId_names_the_only_interval_timer_witness :
  let s0 := initial Sample.wired (Sample.eager None) Sample.half [] in
  let s := run [CallAfterStart; SubscriptionChangeEvent Sample.peerSubscribes;
                CallBeforeStop; CallStop; CallAfterStart] s0 in
  reachable s0 s /\
  intervalId (fst s) = Some 3 /\
  pendingIntervals (snd s) =
    [{| timer_id := 3; timer_kind := SetInterval; timer_delay := 10000 |}].
Proof.
  cbv zeta.
  assert (Hr : reachable (initial Sample.wired (Sample.eager None) Sample.half [])
                 (run [CallAfterStart; SubscriptionChangeEvent Sample.peerSubscribes;
                       CallBeforeStop; CallStop; CallAfterStart]
                    (initial Sample.wired (Sample.eager None) Sample.half [])))
    by (apply reachable_run; constructor).
  split; [exact Hr|]. split; [reflexivity|].
  exact (proj1 (@intervalId_names_the_only_interval_timer Sample.externals
                  Sample.wired (Sample.eager None) Sample.half [] _ Hr)).
Defined.

Lemma interval_tick_publishes_current_addresses_witness :
  let s0 := initial Sample.wired empty_init Sample.half [Sample.addr1] in
  let s := run [CallAfterStart] s0 in
  let s' := run [AddressesChange [Sample.addr2]; TimerFires 1] s in
  (reachable s0 s /\ intervalId (fst s) = Some 1 /\
   PeerId_publicKey (peerId (components (fst s))) = Some Sample.keyY /\
   pubsub (components (fst s)) <> None) /\
  calls (snd s') =
    calls (snd s) ++
    [Publish TOPIC (encode {| PBPeer.publicKey := Sample.keyY;
                              PBPeer.addrs := [Sample.addr2] |})] /\
  timers (snd s') = timers (snd s).
Proof.
  cbv zeta.
  assert (Hr : reachable (initial Sample.wired empty_init Sample.half [Sample.addr1])
                 (run [CallAfterStart]
                    (initial Sample.wired empty_init Sample.half [Sample.addr1])))
    by (apply reachable_run; constructor).
  split; [repeat split; try discriminate; exact Hr|].
  destruct (@interval_tick_publishes_current_addresses Sample.externals
              Sample.wired empty_init Sample.half [Sample.addr1] _ 1 Sample.keyY
              [Sample.addr2] Hr eq_refl eq_refl ltac:(discriminate))
    as (_ & H2 & H3).
  split; [exact H3 | exact H2].
Defined.

Lemma stop_does_not_cancel_a_pending_resolution_witness :
  let s := run [CallAfterStart] (initial Sample.wired empty_init Sample.half []) in
  let peer := {| PBPeer.publicKey := Sample.keyX;
                 PBPeer.addrs := [Sample.addr1; Sample.addr2] |} in
  (intervalId (fst s) = Some 1 /\ messageListener (snd s) = true /\
   promises (snd s) = [] /\
   includes (topics (fst s)) (topic Sample.messageX) = true /\
   decode (data Sample.messageX) = Some peer /\
   peerIdFromKeys (PBPeer.publicKey peer) = Some Sample.nodeX /\
   PeerId_equals Sample.nodeX (peerId (components (fst s))) = false /\
   multiaddrs_of (PBPeer.addrs peer) = Some [Sample.addr1; Sample.addr2]) /\
  dispatched
    (snd (run [MessageEvent Sample.messageX; CallBeforeStop; CallStop; PromiseSettles] s))
  = [{| id := Sample.nodeX; multiaddrs := [Sample.addr1; Sample.addr2]; protocols := [] |}] /\
  dispatched
    (snd (run [CallBeforeStop; CallStop; MessageEvent Sample.messageX; PromiseSettles] s))
  = [].
Proof.
  cbv zeta. split; [repeat split|].
  destruct (@stop_does_not_cancel_a_pending_resolution Sample.externals
              (fst (run [CallAfterStart] (initial Sample.wired empty_init Sample.half [])))
              (snd (run [CallAfterStart] (initial Sample.wired empty_init Sample.half [])))
              Sample.messageX 1
              {| PBPeer.publicKey := Sample.keyX;
                 PBPeer.addrs := [Sample.addr1; Sample.addr2] |}
              Sample.nodeX [Sample.addr1; Sample.addr2]
              eq_refl eq_refl eq_refl eq_refl eq_refl eq_refl eq_refl eq_refl)
    as (_ & H2 & _ & H4).
  split; [exact H2 | exact H4].
Defined.

Lemma transport_calls_name_configured_topics_only_witness :
  let s0 := initial Sample.wired empty_init Sample.half [] in
  let s := run [CallAfterStart; CallBeforeStop; CallStop] s0 in
  let call := Unsubscribe TOPIC in
  (reachable s0 s /\ In call (calls (snd s)) /\ call_topic call = Some TOPIC) /\
  In TOPIC (topics (constructor Sample.wired empty_init)).
Proof.
  cbv zeta.
  assert (Hr : reachable (initial Sample.wired empty_init Sample.half [])
                 (run [CallAfterStart; CallBeforeStop; CallStop]
                    (initial Sample.wired empty_init Sample.half [])))
    by (apply reachable_run; constructor).
  assert (Hin : In (Unsubscribe TOPIC)
                  (calls (snd (run [CallAfterStart; CallBeforeStop; CallStop]
                                 (initial Sample.wired empty_init Sample.half [])))))
    by (right; right; right; left; reflexivity).
  split; [repeat split; [exact Hr | exact Hin]|].
  exact (@transport_calls_name_configured_topics_only Sample.externals
           Sample.wired empty_init Sample.half [] _ Hr (Unsubscribe TOPIC) TOPIC
           Hin eq_refl).
Defined.

Lemma subscription_change_leads_to_one_broadcast_witness :
  let s0 := initial Sample.wired (Sample.eager None) Sample.half [Sample.addr1] in
  let s := run [CallAfterStart; CallBeforeStop; CallStop] s0 in
  let s' := run [SubscriptionChangeEvent Sample.peerSubscribes; TimerFires 2] s in
  (reachable s0 s /\ subscriptionChangeListeners (snd s) = 1 /\
   existsb (fun sub => includes (topics (fst s)) (Subscription.topic sub))
     Sample.peerSubscribes = true /\
   PeerId_publicKey (peerId (components (fst s))) = Some Sample.keyY /\
   pubsub (components (fst s)) <> None) /\
  intervalId (fst s) = None /\
  calls (snd s') =
    calls (snd s) ++
    [Publish TOPIC (encode {| PBPeer.publicKey := Sample.keyY;
                              PBPeer.addrs := [Sample.addr1] |})] /\
  timers (snd s') = [].
Proof.
  cbv zeta.
  assert (Hr : reachable (initial Sample.wired (Sample.eager None) Sample.half [Sample.addr1])
                 (run [CallAfterStart; CallBeforeStop; CallStop]
                    (initial Sample.wired (Sample.eager None) Sample.half [Sample.addr1])))
    by (apply reachable_run; constructor).
  split; [repeat split; try discriminate; exact Hr|].
  split; [reflexivity|].
  destruct (@subscription_change_leads_to_one_broadcast Sample.externals
              Sample.wired (Sample.eager None) Sample.half [Sample.addr1] _
              Sample.peerSubscribes Sample.keyY Hr eq_refl eq_refl eq_refl
              ltac:(discriminate))
    as (_ & H2 & H3).
  split; [exact H3 | exact H2].
Defined.
